(** * Waitlist simulator: the simulation kernel of [app.js]

    A shallow embedding of [mulberry32], [poisson] and [simulate], of the
    histogram of waits and of the comparison of scenarios with its costs,
    with the properties the specification states about them and further
    properties of the code.

    Numbers.  A finite JavaScript Number is kept as a rational ([Q]); integer
    valued program variables (loop counters, array contents, queue entries,
    slot counters) are [nat] or [Z].  The rounding of binary64 is part of
    the state of the generator and of the product of the Poisson sampler
    ([binary64_integer], [binary64_mul]); the other arithmetic on rationals
    is exact.  [Math.exp] is a parameter of the development, since
    ECMAScript leaves its value implementation-approximated, and so is the
    number of arguments an engine accepts in one call.
    The value [undefined] read from an array out of range and the [NaN] it
    turns an addition into are modelled with [option]. *)

From Stdlib Require Import ZArith QArith Qabs Qround Qpower Lia Lqa List Bool Sorted
  Permutation SpecFloat.
From stdpp Require Import base list sorting pretty.

#[local] Open Scope Z_scope.

(** ** 32-bit integer operators of JavaScript *)

Module JS.

(** [ToUint32] and [ToInt32] on an integral Number. *)
Definition ToUint32 (x : Z) : Z := x mod 2 ^ 32.
Definition ToInt32 (x : Z) : Z :=
  let u := x mod 2 ^ 32 in if u <? 2 ^ 31 then u else u - 2 ^ 32.

(** [x >>> n], [x ^ y], [x | y] and [Math.imul(x, y)]. *)
Definition ushr (x n : Z) : Z := Z.shiftr (ToUint32 x) (n mod 32).
Definition xor (x y : Z) : Z := ToInt32 (Z.lxor (ToInt32 x) (ToInt32 y)).
Definition or (x y : Z) : Z := ToInt32 (Z.lor (ToInt32 x) (ToInt32 y)).
Definition imul (x y : Z) : Z := ToInt32 (ToInt32 x * ToInt32 y).

(** Truncation toward zero, the first step of [ToUint32] on a finite
    Number that need not be integral. *)
Definition truncate (q : Q) : Z :=
  if Qle_bool 0 q then Qfloor q else Qceiling q.

(** [q] is an integral Number. *)
Definition is_integer (q : Q) : bool := Qeq_bool q (inject_Z (Qfloor q)).

End JS.

(** ** Rounding to binary64 *)

(** [x < y] on Numbers. *)
Definition Qlt_bool (x y : Q) : bool := negb (Qle_bool y x).

(** The integer nearest to [x], the even one of the two when [x] lies
    half way. *)
Definition round_half_even (x : Q) : Z :=
  let f := Qfloor x in
  let r := (x - inject_Z f)%Q in
  if Qlt_bool r (1 # 2) then f
  else if Qlt_bool (1 # 2) r then f + 1
  else if Z.even f then f else f + 1.

(** [floor(log2 x)] for a positive [x]: the difference of the bit lengths
    of numerator and denominator, or one less. *)
Definition Qlog2 (x : Q) : Z :=
  let e := Z.log2 (Qnum x) - Z.log2 (Zpos (Qden x)) in
  if Qle_bool (2 ^ e) x then e else e - 1.

(** The binary64 value nearest to [x], ties to even: a multiple of
    [2^(e - 52)] where [2^e <= |x| < 2^(e + 1)], and of [2^-1074] below
    [2^-1022], so that a result under half of [2^-1074] is [0].  A result
    beyond the largest binary64 value, an infinity in the code, is kept
    finite here: no product of Numbers of magnitude at most [1] comes
    near it. *)
Definition binary64_round (x : Q) : Q :=
  if Qeq_bool x 0 then 0%Q
  else
    let e := Z.max (Qlog2 (Qabs x)) (- 1022) in
    let ulp := (2 ^ (e - 52))%Q in
    (inject_Z (round_half_even (x / ulp)) * ulp)%Q.

(** [x * y] on Numbers. *)
Definition binary64_mul (x y : Q) : Q := binary64_round (x * y).

(** The Standard Library's specification of binary64 ([SpecFloat], with
    53 bits of precision and [emax = 1024]), against which the product is
    checked below on sample values. *)
Definition Q_of_spec_float (f : spec_float) : option Q :=
  match f with
  | S754_zero _ => Some 0%Q
  | S754_finite s m e =>
      Some ((if s then - (1) else 1) * inject_Z (Zpos m) * 2 ^ e)%Q
  | _ => None
  end.

Definition binary64_mul_agrees (xy : spec_float * spec_float) : bool :=
  let '(x, y) := xy in
  match Q_of_spec_float x, Q_of_spec_float y,
        Q_of_spec_float (SFmul 53 1024 x y) with
  | Some a, Some b, Some c => Qeq_bool (binary64_mul a b) c
  | _, _, _ => false
  end.

(** A non-negative integer as binary64 holds it: exact up to [2^53],
    rounded to 53 significant bits beyond. *)
Definition binary64_integer (n : Z) : Z :=
  if n <=? 2 ^ 53 then n
  else
    let e := Z.log2 n - 52 in
    let m := n / 2 ^ e in
    let r := n mod 2 ^ e in
    let half := 2 ^ (e - 1) in
    let m := if r <? half then m
             else if half <? r then m + 1
             else if Z.even m then m else m + 1 in
    m * 2 ^ e.

(** ** The seeded random source *)

(** [mulberry32(seed)] returns a closure over the variable [a]; the closure
    is modelled by the value of [a], and a call of the closure by
    [mulberry32_next], which returns the draw and the new value of [a].
    [a] is a Number that the code never wraps: [a += 0x6D2B79F5] grows,
    exactly up to [2^53] and rounded as binary64 rounds beyond, and the
    bit operators read it through [ToInt32] and [ToUint32]. *)
Definition mulberry32 (seed : Q) : Z := JS.ushr (JS.truncate seed) 0.

Definition mulberry32_bits (a : Z) : Z :=
  let t := JS.imul (JS.xor a (JS.ushr a 15)) (JS.or 1 a) in
  let t := JS.xor t (t + JS.imul (JS.xor t (JS.ushr t 7)) (JS.or 61 t)) in
  JS.ushr (JS.xor t (JS.ushr t 14)) 0.

Definition mulberry32_next (a : Z) : Q * Z :=
  let a := binary64_integer (a + 0x6D2B79F5) in
  (inject_Z (mulberry32_bits a) / inject_Z 4294967296, a)%Q.

(** ** The Poisson sampler *)

Section Poisson.

(** The random source handed to [poisson]: any closure with a state. *)
Context {G : Type}.
Variable rand : G -> Q * G.
Variable Math_exp : Q -> Q.

(** The product of [p *= rand()].  In the code it is the binary64 product
    [binary64_mul]; what is proved of the loop alone holds whatever the
    product is. *)
Variable Number_mul : Q -> Q -> Q.

(** The [do { k++; p *= rand(); } while (p > L)] loop; [fuel] bounds the
    number of iterations, and [None] says the bound was reached. *)
Fixpoint poisson_loop (fuel : nat) (L : Q) (k : nat) (p : Q) (s : G)
  : option (nat * G) :=
  match fuel with
  | O => None
  | S fuel' =>
      let k := S k in
      let '(r, s) := rand s in
      let p := Number_mul p r in
      if Qle_bool p L then Some ((k - 1)%nat, s)
      else poisson_loop fuel' L k p s
  end.

Definition poisson (fuel : nat) (lambda : Q) (s : G) : option (nat * G) :=
  if Qle_bool lambda 0 then Some (O, s)
  else poisson_loop fuel (Math_exp (- lambda)) 0 1%Q s.

(** The accumulator [p] and the state of the source after [n] more
    draws. *)
Fixpoint after_draws (n : nat) (p : Q) (s : G) : Q * G :=
  match n with
  | O => (p, s)
  | S n' => let '(r, s) := rand s in after_draws n' (Number_mul p r) s
  end.

(** Among the first [n] draws, the number of those that are at most
    [1/2]. *)
Fixpoint small_draws (n : nat) (s : G) : nat :=
  match n with
  | O => O
  | S n' =>
      let '(r, s) := rand s in
      ((if Qle_bool r (1 # 2) then 1 else 0) + small_draws n' s)%nat
  end.

End Poisson.

(** The largest value a binary64 accumulator that started at [1] can have
    after [c] factors of at most [1/2] among factors of at most [1]:
    [2^-c], and [0] once [2^-c] is below the smallest positive binary64
    value [2^-1074]. *)
Definition halved (c : nat) : Q :=
  if (c <=? 1074)%nat then (2 ^ (- Z.of_nat c))%Q else 0%Q.


(** The distance from [1] of the largest draw of [mulberry32]. *)
Definition mulberry32_gap : Q := 1 # 4294967296.


(** ** The simulation *)

Record Params := {
  arrivalRate : Q;
  capacityPerDay : Q;
  dnaRate : Q;
  rebookRate : Q;
  rebookDelay : Q;
  days : Q;
  warmup : Q;
  seed : Q
}.

(** How an invocation ends: with a value, with the [RangeError] of
    [new Array(len)], or without an answer within the iteration bound given
    to the Poisson loops. *)
Inductive outcome (A : Type) : Type :=
| Done (a : A)
| RangeError
| Timeout.
Arguments Done {A} a.
Arguments RangeError {A}.
Arguments Timeout {A}.

#[global] Instance outcome_ret : MRet outcome := @Done.
#[global] Instance outcome_bind : MBind outcome := fun A B f m =>
  match m with
  | Done a => f a
  | RangeError => RangeError
  | Timeout => Timeout
  end.

(** What happened to the person taken from the queue in one service slot.
    The history of these events is a ghost variable: the code has no such
    list, and nothing in the model reads it. *)
Inductive event : Type :=
| Attended (d enteredDay : nat)
| Rebooked (d returnDay : nat)
| Dropped (d returnDay : nat)
| NotRebooked (d : nat).

Record State := {
  st_rand : Z;
  st_futureAdds : list nat;
  st_queue : list nat;
  st_queueSizes : list nat;
  st_waits : list Z;
  st_totalSlots : nat;
  st_usedSlots : nat;
  st_history : list event
}.

(** A value stored in the returned metrics that may be [null], or
    [undefined] when an array is read out of range.  In the fields of type
    [option Q] below, [None] is [null]. *)
Inductive jsval : Type :=
| JNull
| JUndefined
| JNum (w : Z).

Record Metrics := {
  utilisation : Q;
  meanWait : option Q;
  medianWait : jsval;
  p90Wait : jsval;
  within14 : option Q;
  within28 : option Q;
  within42 : option Q;
  nSeen : nat
}.

Record Result := {
  queueSizes : list nat;
  waits : list Z;
  metrics : Metrics
}.

(** [new Array(len).fill(0)]: a [RangeError] unless [len] is an integer in
    [0, 2^32 - 1]. *)
Definition new_Array_fill0 (len : Q) : outcome (list nat) :=
  if JS.is_integer len && Qle_bool 0 len && Qle_bool len (inject_Z (2 ^ 32 - 1))
  then Done (replicate (Z.to_nat (Qfloor len)) 0%nat)
  else RangeError.

(** [Math.max(0, Math.floor(x))], a natural number. *)
Definition floor0 (x : Q) : nat := Z.to_nat (Z.max 0 (Qfloor x)).

(** [arr[i]] for an array of integers and an integral Number [i]. *)
Definition index (arr : list Z) (i : Z) : jsval :=
  if i <? 0 then JUndefined
  else match arr !! Z.to_nat i with
       | Some w => JNum w
       | None => JUndefined
       end.

Definition Qnat (n : nat) : Q := inject_Z (Z.of_nat n).

(** The body of the service loop after the [break] test, for the person
    [enteredDay] that [queue.shift()] returned ([rest] is what is left of
    the queue). *)
Definition serve (p : Params) (d enteredDay : nat) (rest : list nat) (st : State)
  : State :=
  let usedSlots := (st_usedSlots st + 1)%nat in
  let '(r, g) := mulberry32_next (st_rand st) in
  let isDNA := Qlt_bool r (dnaRate p / 100) in
  if isDNA then
    let '(r, g) := mulberry32_next g in
    let willRebook := Qlt_bool r (rebookRate p / 100) in
    if willRebook then
      let returnDay := (d + floor0 (rebookDelay p))%nat in
      if (returnDay <? length (st_futureAdds st))%nat then
        {| st_rand := g;
           st_futureAdds := alter S returnDay (st_futureAdds st);
           st_queue := rest;
           st_queueSizes := st_queueSizes st;
           st_waits := st_waits st;
           st_totalSlots := st_totalSlots st;
           st_usedSlots := usedSlots;
           st_history := st_history st ++ [Rebooked d returnDay] |}
      else
        {| st_rand := g;
           st_futureAdds := st_futureAdds st;
           st_queue := rest;
           st_queueSizes := st_queueSizes st;
           st_waits := st_waits st;
           st_totalSlots := st_totalSlots st;
           st_usedSlots := usedSlots;
           st_history := st_history st ++ [Dropped d returnDay] |}
    else
      {| st_rand := g;
         st_futureAdds := st_futureAdds st;
         st_queue := rest;
         st_queueSizes := st_queueSizes st;
         st_waits := st_waits st;
         st_totalSlots := st_totalSlots st;
         st_usedSlots := usedSlots;
         st_history := st_history st ++ [NotRebooked d] |}
  else
    let wait := Z.of_nat d - Z.of_nat enteredDay in
    {| st_rand := g;
       st_futureAdds := st_futureAdds st;
       st_queue := rest;
       st_queueSizes := st_queueSizes st;
       st_waits := if Qle_bool (warmup p) (Qnat d)
                   then st_waits st ++ [wait] else st_waits st;
       st_totalSlots := st_totalSlots st;
       st_usedSlots := usedSlots;
       st_history := st_history st ++ [Attended d enteredDay] |}.

(** [for (let s = 0; s < cap; s++) { if (queue.length === 0) break; ... }],
    by recursion on the slots that are left. *)
Fixpoint service_loop (p : Params) (d slots : nat) (st : State) : State :=
  match slots with
  | O => st
  | S slots' =>
      match st_queue st with
      | [] => st
      | enteredDay :: rest =>
          service_loop p d slots' (serve p d enteredDay rest st)
      end
  end.

(** [waits.sort((a, b) => a - b)]: ascending order. *)
Definition sort_waits (ws : list Z) : list Z := merge_sort Z.le ws.

(** The closures [quantile] and [within] of [simulate], and the expression
    bound to [mean]; [ws] is the sorted array they capture. *)
Definition quantile_index (n : nat) (q : Q) : Z :=
  Qfloor (inject_Z (Z.of_nat n - 1) * q).

Definition quantile (ws : list Z) (q : Q) : jsval :=
  let n := length ws in
  if (n =? 0)%nat then JNull
  else let idx := quantile_index n q in index ws idx.

Definition mean (ws : list Z) : option Q :=
  let n := length ws in
  if (n =? 0)%nat then None
  else Some (inject_Z (fold_left Z.add ws 0%Z) / Qnat n)%Q.

Definition within (ws : list Z) (t : Z) : option Q :=
  let n := length ws in
  if (n =? 0)%nat then None
  else Some (Qnat (length (filter (fun w => (w <= t)%Z) ws)) / Qnat n)%Q.

Definition utilisation_of (usedSlots totalSlots : nat) : Q :=
  if (0 <? totalSlots)%nat then (Qnat usedSlots / Qnat totalSlots)%Q else 0%Q.

(** The statements of [simulate] after the day loop. *)
Definition summarise (st : State) : Result :=
  let ws := sort_waits (st_waits st) in
  {| queueSizes := st_queueSizes st;
     waits := ws;
     metrics :=
       {| utilisation := utilisation_of (st_usedSlots st) (st_totalSlots st);
          meanWait := mean ws;
          medianWait := quantile ws (1 # 2);
          p90Wait := quantile ws (9 # 10);
          within14 := within ws 14;
          within28 := within ws 28;
          within42 := within ws 42;
          nSeen := length ws |} |}.

(** The number of iterations of [for (let d = 0; d < days; d++)]. *)
Definition horizon (p : Params) : nat := Z.to_nat (Qceiling (days p)).

(** The state when the day loop starts. *)
Definition initial (p : Params) (futureAdds : list nat) : State :=
  {| st_rand := mulberry32 (seed p);
     st_futureAdds := futureAdds;
     st_queue := [];
     st_queueSizes := [];
     st_waits := [];
     st_totalSlots := 0;
     st_usedSlots := 0;
     st_history := [] |}.

Section Simulate.

Variable Math_exp : Q -> Q.
Variable fuel : nat.

(** [poisson(arrivalRate, rand) + futureAdds[d]]: [None] is the [NaN] that
    the sum is when [futureAdds[d]] is [undefined]. *)
Definition arrivals_of (k : nat) (futureAdds : list nat) (d : nat) : option nat :=
  f ← futureAdds !! d; Some (k + f)%nat.

(** [for (let i = 0; i < arrivals; i++) queue.push(d)]; the test fails at
    once when [arrivals] is [NaN]. *)
Definition push_arrivals (queue : list nat) (arrivals : option nat) (d : nat)
  : list nat :=
  match arrivals with
  | Some n => queue ++ replicate n d
  | None => queue
  end.

Definition cap_of (p : Params) : nat := floor0 (capacityPerDay p).

(** One iteration of the day loop.  In a run the sampler multiplies
    exactly ([Qmult]); the rounding of its accumulator, which
    [binary64_mul] gives, can only change how many arrivals a day draws. *)
Definition day (p : Params) (d : nat) (st : State) : outcome State :=
  match poisson mulberry32_next Math_exp Qmult fuel (arrivalRate p) (st_rand st) with
  | None => Timeout
  | Some (k, g) =>
      let arrivals := arrivals_of k (st_futureAdds st) d in
      let cap := cap_of p in
      let st :=
        service_loop p d cap
          {| st_rand := g;
             st_futureAdds := st_futureAdds st;
             st_queue := push_arrivals (st_queue st) arrivals d;
             st_queueSizes := st_queueSizes st;
             st_waits := st_waits st;
             st_totalSlots := st_totalSlots st + cap;
             st_usedSlots := st_usedSlots st;
             st_history := st_history st |} in
      Done
        {| st_rand := st_rand st;
           st_futureAdds := st_futureAdds st;
           st_queue := st_queue st;
           st_queueSizes := st_queueSizes st ++ [length (st_queue st)];
           st_waits := st_waits st;
           st_totalSlots := st_totalSlots st;
           st_usedSlots := st_usedSlots st;
           st_history := st_history st |}
  end.

(** The state after the iterations [d = 0, ..., n - 1] of the day loop. *)
Fixpoint run_days (p : Params) (n : nat) (st0 : State) : outcome State :=
  match n with
  | O => Done st0
  | S d => st ← run_days p d st0; day p d st
  end.

(** [simulate] up to the start of day [n], up to the end of the day loop,
    and the whole of it.  The length [days + rebookDelay + 2] is the exact
    sum, which is the sum of the code for whole numbers of days and of
    delay (up to [2^51] in magnitude), as the form reads them with
    [parseInt]. *)
Definition run_until (p : Params) (n : nat) : outcome State :=
  futureAdds ← new_Array_fill0 (days p + rebookDelay p + 2)%Q;
  run_days p n (initial p futureAdds).

Definition run (p : Params) : outcome State := run_until p (horizon p).

Definition simulate (p : Params) : outcome Result :=
  st ← run p; Done (summarise st).

(** The quantities of day [d] that the conservation law speaks of: the
    Poisson draw, [arrivals] (a Number, or [None] for [NaN]), the number
    of services, and the length of the queue when the service loop
    starts. *)
Definition poisson_draw (p : Params) (d : nat) : option nat :=
  match run_until p d with
  | Done st =>
      fst <$> poisson mulberry32_next Math_exp Qmult fuel (arrivalRate p) (st_rand st)
  | _ => None
  end.

Definition arrivals (p : Params) (d : nat) : option nat :=
  match run_until p d with
  | Done st => k ← poisson_draw p d; arrivals_of k (st_futureAdds st) d
  | _ => None
  end.

Definition servedThisDay (p : Params) (d : nat) : option nat :=
  match run_until p d, run_until p (S d) with
  | Done st, Done st' => Some (st_usedSlots st' - st_usedSlots st)%nat
  | _, _ => None
  end.

Definition queueLengthBeforeService (p : Params) (d : nat) : option nat :=
  match run_until p d with
  | Done st =>
      Some (length (push_arrivals (st_queue st) (arrivals p d) d))
  | _ => None
  end.

End Simulate.

(** A rational stand-in for [Math.exp], used where a run is evaluated: the
    Taylor polynomial of degree 40 of the exponential, inverted for a
    negative argument. *)
Fixpoint exp_series (n : nat) (i : Z) (term acc x : Q) : Q :=
  match n with
  | O => acc
  | S n' =>
      let term := Qred (term * x / inject_Z i) in
      exp_series n' (i + 1) term (Qred (acc + term)) x
  end.

Definition exp_taylor (x : Q) : Q :=
  if Qle_bool 0 x then exp_series 40 1 1 1 x
  else (/ exp_series 40 1 1 1 (- x))%Q.

(** Two records that hold the same eight Numbers. *)
Definition same_numbers (p1 p2 : Params) : Prop :=
  (arrivalRate p1 == arrivalRate p2)%Q /\
  (capacityPerDay p1 == capacityPerDay p2)%Q /\
  (dnaRate p1 == dnaRate p2)%Q /\
  (rebookRate p1 == rebookRate p2)%Q /\
  (rebookDelay p1 == rebookDelay p2)%Q /\
  (days p1 == days p2)%Q /\
  (warmup p1 == warmup p2)%Q /\
  (seed p1 == seed p2)%Q.

(** ** The histogram of waits *)

(** [buildHistogram(data, binSize, maxBins)] on an array of integers, for a
    positive integral [binSize] (the only call passes [3] and [30]).  The
    labels are the template strings of the code, with the decimal digits of
    the bin edges. *)
Record Histogram := {
  labels : list string;
  counts : list nat
}.

(** The largest element of an array with first element [x]. *)
Definition Math_max (x : Z) (xs : list Z) : Z := fold_left Z.max xs x.

(** [Math.max(...data)]: the spread passes every element as an argument of
    one call.  An engine accepts only so many arguments, [max_arguments],
    a number that ECMAScript leaves to it, and throws a [RangeError] when
    there are more. *)
Definition Math_max_spread (max_arguments : nat) (x : Z) (xs : list Z)
  : outcome Z :=
  if (length (x :: xs) <=? max_arguments)%nat then Done (Math_max x xs)
  else RangeError.

(** [Math.floor(Math.min(x, maxEdge) / binSize)]. *)
Definition bin_of (binSize : positive) (maxEdge x : Z) : Z :=
  Z.min x maxEdge / Zpos binSize.

(** [counts[idx] += 1].  At a negative [idx] the code sets a property that
    is not an element of the array; an [idx] at or beyond the length, which
    would append [NaN], is never computed ([bin_of_below_bins]). *)
Definition count_in (counts : list nat) (idx : Z) : list nat :=
  if idx <? 0 then counts else alter S (Z.to_nat idx) counts.

Definition bin_label (binSize : positive) (i : nat) : string :=
  pretty (N.of_nat i * Npos binSize)%N +:+ "-"
  +:+ pretty (N.of_nat i * Npos binSize + (Npos binSize - 1))%N.

Definition buildHistogram
    (max_arguments : nat) (data : list Z) (binSize : positive) (maxBins : Z)
  : outcome Histogram :=
  match data with
  | [] => Done {| labels := []; counts := [] |}
  | x :: xs =>
      max ← Math_max_spread max_arguments x xs;
      let maxEdge := Z.min max (Zpos binSize * maxBins) in
      let bins := maxEdge / Zpos binSize + 1 in
      counts ← new_Array_fill0 (inject_Z bins);
      let counts :=
        fold_left (fun c x => count_in c (bin_of binSize maxEdge x)) data counts in
      Done {| labels := imap (fun i _ => bin_label binSize i) counts;
              counts := counts |}
  end.

(** The call of [renderCharts]. *)
Definition waits_histogram (max_arguments : nat) (r : Result)
  : outcome Histogram :=
  buildHistogram max_arguments (waits r) 3 30.

(** ** Scenarios and their cost *)

(** The two cost inputs as [parseFloat] reads them from the page: [None]
    is [NaN] or an infinity, for which [Number.isFinite] is false. *)
Record CostInputs := {
  wteCostAnnual_value : option Q;
  slotsPerWTE_value : option Q
}.

Record CostAssumptions := {
  wteCostAnnual : Q;
  slotsPerWTE : Q
}.

Definition getCostAssumptions (inputs : CostInputs) : CostAssumptions :=
  {| wteCostAnnual := default 55000%Q (wteCostAnnual_value inputs);
     slotsPerWTE := default 2%Q (slotsPerWTE_value inputs) |}.

(** The [params] of the four scenarios.  Their names, strings that only the
    table shows, are left out. *)
Record Scenarios := {
  baseline : Params;
  addCapacity : Params;
  reduceDNA : Params;
  addWTE : Params
}.

(** [{ ...base, capacityPerDay: c }] and [{ ...base, dnaRate: r }]. *)
Definition with_capacityPerDay (base : Params) (c : Q) : Params :=
  {| arrivalRate := arrivalRate base; capacityPerDay := c;
     dnaRate := dnaRate base; rebookRate := rebookRate base;
     rebookDelay := rebookDelay base; days := days base;
     warmup := warmup base; seed := seed base |}.

Definition with_dnaRate (base : Params) (r : Q) : Params :=
  {| arrivalRate := arrivalRate base; capacityPerDay := capacityPerDay base;
     dnaRate := r; rebookRate := rebookRate base;
     rebookDelay := rebookDelay base; days := days base;
     warmup := warmup base; seed := seed base |}.

(** [Math.max(0, x)] on Numbers. *)
Definition Math_max0 (x : Q) : Q := if Qle_bool 0 x then x else 0%Q.

(** [buildScenariosFromCurrentInputs()], for inputs [base] that all parse
    to finite Numbers.  [slotsPerWTE || 0] is [slotsPerWTE]: the two differ
    only at [NaN], which [getCostAssumptions] never returns. *)
Definition buildScenariosFromCurrentInputs (base : Params) (inputs : CostInputs)
  : Scenarios :=
  let slotsPerWTE := slotsPerWTE (getCostAssumptions inputs) in
  let wteSlots := floor0 slotsPerWTE in
  {| baseline := base;
     addCapacity := with_capacityPerDay base (capacityPerDay base + 2)%Q;
     reduceDNA := with_dnaRate base (Math_max0 (dnaRate base - 5)%Q);
     addWTE := with_capacityPerDay base (capacityPerDay base + Qnat wteSlots)%Q |}.

(** [Object.values(scenarios)], in the order of the keys. *)
Definition Object_values (s : Scenarios) : list Params :=
  [baseline s; addCapacity s; reduceDNA s; addWTE s].

(** [estimateIncrementalAnnualCost(baselineParams, scenarioParams)].  The
    two tests of [Number.isFinite] hold for finite capacities and for what
    [getCostAssumptions] returns. *)
Definition estimateIncrementalAnnualCost
    (inputs : CostInputs) (baselineParams scenarioParams : Params) : Q :=
  let c := getCostAssumptions inputs in
  let deltaSlots := (capacityPerDay scenarioParams - capacityPerDay baselineParams)%Q in
  if Qle_bool deltaSlots 0 then 0%Q
  else if Qle_bool (slotsPerWTE c) 0 then 0%Q
  else let wteAdded := (deltaSlots / slotsPerWTE c)%Q in
       (wteAdded * wteCostAnnual c)%Q.

(** The cost that [runAllComparisons] works out for one of the scenarios. *)
Definition incCost (base : Params) (inputs : CostInputs)
    (scenario : Scenarios -> Params) : Q :=
  let scenarios := buildScenariosFromCurrentInputs base inputs in
  estimateIncrementalAnnualCost inputs (baseline scenarios) (scenario scenarios).

(** [weeksSaved]: [None] is [null] (a median is [null]) or [NaN] (a median
    is [undefined]); both are falsy where the value is tested. *)
Definition weeksSaved (baselineMedian median : jsval) : option Q :=
  match baselineMedian, median with
  | JNum b, JNum w => Some (inject_Z (b - w) / 7)%Q
  | _, _ => None
  end.

(** A row of the comparison.  [costPerWeekSaved] is [None] for the dash and
    [Some x] for the string [fmtGBP(x)]; the formatting is not modelled. *)
Record ComparisonRow := {
  m : Metrics;
  costPerWeekSaved : option Q
}.

(** [Array.prototype.map] with a callback that may throw. *)
Fixpoint map_outcome {A B : Type} (f : A -> outcome B) (l : list A)
  : outcome (list B) :=
  match l with
  | [] => Done []
  | x :: l => y ← f x; ys ← map_outcome f l; Done (y :: ys)
  end.

Section Comparisons.

Variable Math_exp : Q -> Q.
Variable fuel : nat.
Variable inputs : CostInputs.

(** The callback of [runAllComparisons]. *)
Definition comparison_row (baselineParams : Params) (baselineMedian : jsval)
    (s : Params) : outcome ComparisonRow :=
  out ← simulate Math_exp fuel s;
  let incCost := estimateIncrementalAnnualCost inputs baselineParams s in
  let weeksSaved := weeksSaved baselineMedian (medianWait (metrics out)) in
  let costPerWeekSaved :=
    match weeksSaved with
    | Some w =>
        if Qlt_bool 0 incCost && Qlt_bool (5 # 100) w then Some (incCost / w)%Q
        else None
    | None => None
    end in
  Done {| m := metrics out; costPerWeekSaved := costPerWeekSaved |}.

(** [runAllComparisons()], returning the rows it stores and renders. *)
Definition runAllComparisons (base : Params) : outcome (list ComparisonRow) :=
  let scenarios := buildScenariosFromCurrentInputs base inputs in
  let baseline := baseline scenarios in
  baselineOut ← simulate Math_exp fuel baseline;
  let baselineMedian := medianWait (metrics baselineOut) in
  map_outcome (comparison_row baseline baselineMedian) (Object_values scenarios).

End Comparisons.

(** Data that reach beyond the last bin edge, and their histogram. *)
Definition spread : list Z := [0; 100; 95; 7; 89; 90].

Definition spread_histogram : Histogram :=
  Eval vm_compute in
    match buildHistogram 1000 spread 3 30 with
    | Done h => h
    | _ => {| labels := []; counts := [] |}
    end.

(** ** Parameter records used as examples *)

(** A short run with arrivals, non-attendance and rebooking. *)
Definition small : Params :=
  {| arrivalRate := 3; capacityPerDay := 2; dnaRate := 30; rebookRate := 70;
     rebookDelay := 2; days := 8; warmup := 2; seed := 42 |}.

(** The same Numbers as [small], written with other fractions. *)
Definition small_unreduced : Params :=
  {| arrivalRate := 6 # 2; capacityPerDay := 4 # 2; dnaRate := 90 # 3;
     rebookRate := 140 # 2; rebookDelay := 2; days := 16 # 2; warmup := 2;
     seed := 84 # 2 |}.

(** Scenario 1 with a delay of a day and a half. *)
Definition fractional_delay : Params :=
  {| arrivalRate := 18; capacityPerDay := 16; dnaRate := 12; rebookRate := 70;
     rebookDelay := 3 # 2; days := 180; warmup := 14; seed := 42 |}.

(** A negative delay and a short horizon: the array length is
    [2 + (-5) + 2 = -1]. *)
Definition negative_length : Params :=
  {| arrivalRate := 18; capacityPerDay := 16; dnaRate := 12; rebookRate := 70;
     rebookDelay := - (5); days := 2; warmup := 0; seed := 42 |}.

(** A negative delay: the array gets [10 + (-5) + 2 = 7] slots for a
    horizon of ten days. *)
Definition negative_delay : Params :=
  {| arrivalRate := 3; capacityPerDay := 1; dnaRate := 0; rebookRate := 0;
     rebookDelay := - (5); days := 10; warmup := 0; seed := 42 |}.

(** Scenario 3: no capacity. *)
Definition zero_capacity : Params :=
  {| arrivalRate := 3; capacityPerDay := 0; dnaRate := 12; rebookRate := 70;
     rebookDelay := 7; days := 8; warmup := 2; seed := 42 |}.

(** Scenario 2: no demand. *)
Definition zero_demand : Params :=
  {| arrivalRate := 0; capacityPerDay := 10; dnaRate := 12; rebookRate := 70;
     rebookDelay := 7; days := 30; warmup := 0; seed := 42 |}.

(** Rebooking on the day of the missed appointment. *)
Definition same_day_rebooking : Params :=
  {| arrivalRate := 3; capacityPerDay := 2; dnaRate := 60; rebookRate := 100;
     rebookDelay := 0; days := 6; warmup := 0; seed := 42 |}.

(** The runs of the examples, evaluated with [exp_taylor] and a bound of
    100 iterations for each Poisson loop. *)
Definition state_of (o : outcome State) : State :=
  match o with
  | Done st => st
  | _ => initial small []
  end.

Definition small_state : State :=
  Eval vm_compute in state_of (run exp_taylor 100 small).

Definition negative_delay_state : State :=
  Eval vm_compute in state_of (run exp_taylor 100 negative_delay).

Definition zero_capacity_state : State :=
  Eval vm_compute in state_of (run exp_taylor 100 zero_capacity).

(** [Math.exp(x)] is [0] in binary64 for [x] below about [-745.13]: a
    stand-in that is [0] from [-746] down and [exp_taylor] above. *)
Definition exp_underflow (x : Q) : Q :=
  if Qle_bool x (- (746)) then 0%Q else exp_taylor x.

(** Cost inputs left blank, so that the defaults apply; a part-time post;
    and the rows of the comparison for [small]. *)
Definition blank_costs : CostInputs :=
  {| wteCostAnnual_value := None; slotsPerWTE_value := None |}.

Definition part_time_costs : CostInputs :=
  {| wteCostAnnual_value := Some 70000%Q; slotsPerWTE_value := Some (5 # 2)%Q |}.

Definition rows_of (o : outcome (list ComparisonRow)) : list ComparisonRow :=
  match o with
  | Done rows => rows
  | _ => []
  end.

Definition small_rows : list ComparisonRow :=
  Eval vm_compute in
    rows_of (runAllComparisons exp_taylor 100 blank_costs small).

#[global] Arguments mulberry32_next : simpl never.
#[global] Arguments serve : simpl never.
#[global] Arguments floor0 : simpl never.

(** [queueSizes[d - 1]], with [queueSizes[-1] = 0]. *)
Definition previous_size (qs : list nat) (d : nat) : nat :=
  match d with
  | O => 0%nat
  | S d' => nth d' qs 0%nat
  end.

(** ** What the history says *)

(** The waits the attended services of a history contribute: one per
    attendance on a day [d >= warmup]. *)
Definition recorded_wait (p : Params) (ev : event) : option Z :=
  match ev with
  | Attended d enteredDay =>
      if Qle_bool (warmup p) (Qnat d)
      then Some (Z.of_nat d - Z.of_nat enteredDay) else None
  | _ => None
  end.

Definition recorded_waits (p : Params) (h : list event) : list Z :=
  omap (recorded_wait p) h.

Definition is_dropped (ev : event) : bool :=
  match ev with Dropped _ _ => true | _ => false end.

(** What one service on day [d] can log, given the length [len] of
    [futureAdds] and the queue [q] it serves from. *)
Definition event_on (p : Params) (len d : nat) (q : list nat) (ev : event) : Prop :=
  match ev with
  | Attended d' e => d' = d /\ e ∈ q
  | Rebooked d' r => d' = d /\ r = (d + floor0 (rebookDelay p))%nat /\ (r < len)%nat
  | Dropped d' r => d' = d /\ r = (d + floor0 (rebookDelay p))%nat /\ (len <= r)%nat
  | NotRebooked d' => d' = d
  end.

(** What holds of the state after [n] days, whatever the state [st0] the
    loop started from. *)
Record reached (p : Params) (st0 : State) (n : nat) (st : State) : Prop := {
  reached_futureAdds : length (st_futureAdds st) = length (st_futureAdds st0);
  reached_queueSizes :
    exists qs, st_queueSizes st = st_queueSizes st0 ++ qs /\ length qs = n;
  reached_totalSlots :
    st_totalSlots st = (st_totalSlots st0 + n * cap_of p)%nat;
  reached_usedSlots :
    exists evs,
      st_history st = st_history st0 ++ evs /\
      st_waits st = st_waits st0 ++ recorded_waits p evs /\
      st_usedSlots st = (st_usedSlots st0 + length evs)%nat /\
      (length evs <= n * cap_of p)%nat /\
      Forall (fun ev => exists d q,
                  (d < n)%nat /\
                  Forall (fun e => (e <= d)%nat \/ e ∈ st_queue st0) q /\
                  event_on p (length (st_futureAdds st0)) d q ev) evs;
  reached_queue :
    Forall (fun e => (e < n)%nat \/ e ∈ st_queue st0) (st_queue st)
}.

(** ** Further readings of the history *)

(** The day of a service, and the entry days of the people who attended,
    in the order of service. *)
Definition event_day (ev : event) : nat :=
  match ev with
  | Attended d _ | Rebooked d _ | Dropped d _ | NotRebooked d => d
  end.

Definition attended_entry (ev : event) : option nat :=
  match ev with
  | Attended _ enteredDay => Some enteredDay
  | _ => None
  end.

Definition attended_entries (h : list event) : list nat := omap attended_entry h.

(** The rebookings of a history whose increment of [futureAdds] went to
    slot [i]. *)
Definition rebooked_to (i : nat) (ev : event) : bool :=
  match ev with
  | Rebooked _ returnDay => (returnDay =? i)%nat
  | _ => false
  end.

Definition scheduled_for (h : list event) (i : nat) : nat :=
  length (filter (fun ev => rebooked_to i ev = true) h).

(** First in, first out, as an invariant of the loops: the entry days of
    the people who attended so far, followed by those of the people still
    queued, never decrease and stay within [bound]; so do the days of the
    services. *)
Definition fifo (bound : nat) (st : State) : Prop :=
  StronglySorted le (attended_entries (st_history st) ++ st_queue st) /\
  Forall (fun e => (e <= bound)%nat) (attended_entries (st_history st) ++ st_queue st) /\
  StronglySorted le (map event_day (st_history st)) /\
  Forall (fun d => (d <= bound)%nat) (map event_day (st_history st)).

(** The state after [n] days on which nobody arrived. *)
Definition idle_state (p : Params) (futureAdds : list nat) (n : nat) : State :=
  {| st_rand := mulberry32 (seed p);
     st_futureAdds := futureAdds;
     st_queue := [];
     st_queueSizes := replicate n 0%nat;
     st_waits := [];
     st_totalSlots := n * cap_of p;
     st_usedSlots := 0;
     st_history := [] |}.

(** Each slot of [futureAdds] counts the rebookings that went to it. *)
Definition tallied (st : State) : Prop :=
  forall i c, st_futureAdds st !! i = Some c -> c = scheduled_for (st_history st) i.

(** The record [p] with another seed. *)
Definition with_seed (p : Params) (s : Q) : Params :=
  {| arrivalRate := arrivalRate p; capacityPerDay := capacityPerDay p;
     dnaRate := dnaRate p; rebookRate := rebookRate p;
     rebookDelay := rebookDelay p; days := days p; warmup := warmup p;
     seed := s |}.

(** ** The service loop *)

Section Service.

Variable p : Params.
Variable d : nat.

Lemma serve_spec (e : nat) (rest : list nat) (st : State) :
  let st' := serve p d e rest st in
  st_queue st' = rest /\
  st_queueSizes st' = st_queueSizes st /\
  st_totalSlots st' = st_totalSlots st /\
  st_usedSlots st' = S (st_usedSlots st) /\
  length (st_futureAdds st') = length (st_futureAdds st) /\
  exists ev,
    st_history st' = st_history st ++ [ev] /\
    st_waits st' = st_waits st ++ recorded_waits p [ev] /\
    event_on p (length (st_futureAdds st)) d [e] ev.
Proof.
  unfold serve.
  destruct (mulberry32_next (st_rand st)) as [r g].
  destruct (Qlt_bool r (dnaRate p / 100)).
  - destruct (mulberry32_next g) as [r' g'].
    destruct (Qlt_bool r' (rebookRate p / 100)).
    + destruct (Nat.ltb_spec (d + floor0 (rebookDelay p)) (length (st_futureAdds st)));
        cbn; rewrite ?length_alter; split_and!; try lia; try reflexivity.
      * exists (Rebooked d (d + floor0 (rebookDelay p))); cbn.
        rewrite app_nil_r. repeat split; auto.
      * exists (Dropped d (d + floor0 (rebookDelay p))); cbn.
        rewrite app_nil_r. repeat split; auto.
    + cbn. split_and!; try lia; try reflexivity.
      exists (NotRebooked d); cbn. rewrite app_nil_r. repeat split; auto.
  - cbn. split_and!; try lia; try reflexivity.
    exists (Attended d e); cbn.
    destruct (Qle_bool (warmup p) (Qnat d)); cbn; rewrite ?app_nil_r;
      repeat split; auto; apply list_elem_of_singleton; reflexivity.
Qed.

(** The loop serves [min slots (length queue)] people from the front of
    the queue, one slot and one event for each. *)
Lemma service_loop_spec (slots : nat) (st : State) :
  let st' := service_loop p d slots st in
  let served := Nat.min slots (length (st_queue st)) in
  st_queue st' = drop served (st_queue st) /\
  st_queueSizes st' = st_queueSizes st /\
  st_totalSlots st' = st_totalSlots st /\
  st_usedSlots st' = (st_usedSlots st + served)%nat /\
  length (st_futureAdds st') = length (st_futureAdds st) /\
  exists evs,
    length evs = served /\
    st_history st' = st_history st ++ evs /\
    st_waits st' = st_waits st ++ recorded_waits p evs /\
    Forall (event_on p (length (st_futureAdds st)) d (st_queue st)) evs.
Proof.
  revert st. induction slots as [|slots IH]; intros st; cbn.
  - rewrite drop_0, Nat.add_0_r. split_and!; auto.
    exists []. rewrite !app_nil_r. repeat split; auto.
  - destruct (st_queue st) as [|e rest] eqn:Hq; cbn.
    + rewrite Hq, Nat.add_0_r. split_and!; auto.
      exists []. rewrite !app_nil_r. repeat split; auto.
    + destruct (serve_spec e rest st) as (Hq' & Hs & Ht & Hu & Hf & ev & Hh & Hw & Hev).
      specialize (IH (serve p d e rest st)).
      destruct IH as (IHq & IHs & IHt & IHu & IHf & evs & Hlen & IHh & IHw & IHev).
      rewrite Hq' in *. rewrite Hf in *.
      split_and!; try congruence; try lia.
      exists (ev :: evs). split_and!.
      * cbn. lia.
      * rewrite IHh, Hh, <- app_assoc. reflexivity.
      * rewrite IHw, Hw, <- app_assoc. f_equal.
        change (ev :: evs) with ([ev] ++ evs).
        unfold recorded_waits. now rewrite omap_app.
      * constructor.
        -- destruct ev; cbn in *; intuition auto.
           apply elem_of_cons. left. now apply list_elem_of_singleton.
        -- eapply Forall_impl; [exact IHev|].
           intros [] ?; cbn in *; intuition auto.
           apply elem_of_cons. now right.
Qed.

End Service.

(** ** The day loop *)

Section Days.

Variable Math_exp : Q -> Q.
Variable fuel : nat.
Variable p : Params.

Lemma day_spec (d : nat) (st st' : State) :
  day Math_exp fuel p d st = Done st' ->
  exists k g,
    poisson mulberry32_next Math_exp Qmult fuel (arrivalRate p) (st_rand st) = Some (k, g) /\
    let q := push_arrivals (st_queue st) (arrivals_of k (st_futureAdds st) d) d in
    let served := Nat.min (cap_of p) (length q) in
    st_queue st' = drop served q /\
    st_queueSizes st' = st_queueSizes st ++ [length (st_queue st')] /\
    st_totalSlots st' = (st_totalSlots st + cap_of p)%nat /\
    st_usedSlots st' = (st_usedSlots st + served)%nat /\
    length (st_futureAdds st') = length (st_futureAdds st) /\
    exists evs,
      length evs = served /\
      st_history st' = st_history st ++ evs /\
      st_waits st' = st_waits st ++ recorded_waits p evs /\
      Forall (event_on p (length (st_futureAdds st)) d q) evs.
Proof.
  unfold day.
  destruct (poisson _ _ _ _ _) as [[k g]|]; [|discriminate].
  intros [= <-]. exists k, g. split; [reflexivity|].
  match goal with |- context [service_loop p d ?c ?s] =>
    pose proof (service_loop_spec p d c s) as H; cbn in H
  end.
  destruct H as (Hq & Hs & Ht & Hu & Hf & evs & Hlen & Hh & Hw & Hev).
  cbn. split_and!; auto.
  - now rewrite Hs.
  - exists evs. split_and!; auto.
Qed.

Lemma run_days_reached (st0 : State) (n : nat) (st : State) :
  run_days Math_exp fuel p n st0 = Done st -> reached p st0 n st.
Proof.
  revert st. induction n as [|n IH]; intros st; cbn.
  - intros [= <-]. constructor; rewrite ?Nat.add_0_r; auto.
    + exists []. now rewrite app_nil_r.
    + exists []. rewrite !app_nil_r. split_and!; auto.
    + apply Forall_forall. auto.
  - destruct (run_days Math_exp fuel p n st0) as [st1| |] eqn:Hrun;
      cbn; try discriminate.
    intros Hday. specialize (IH st1 eq_refl).
    destruct IH as [Hf (qs & Hqs & Hlqs) Ht (evs & Hh & Hw & Hu & Hle & Hev) Hq].
    apply day_spec in Hday.
    destruct Hday as (k & g & _ & Hq' & Hs' & Ht' & Hu' & Hf' & evs' & Hl' & Hh' & Hw' & Hev').
    set (q := push_arrivals (st_queue st1) (arrivals_of k (st_futureAdds st1) n) n) in *.
    assert (Hqn : Forall (fun e => (e <= n)%nat \/ e ∈ st_queue st0) q).
    { subst q. unfold push_arrivals. destruct (arrivals_of _ _ _).
      - apply Forall_app. split.
        + eapply Forall_impl; [exact Hq|]. cbn. intros e [?|?]; [left; lia|now right].
        + apply Forall_forall. intros e He.
          apply elem_of_replicate in He. left. lia.
      - eapply Forall_impl; [exact Hq|]. cbn. intros e [?|?]; [left; lia|now right]. }
    constructor.
    + congruence.
    + exists (qs ++ [length (st_queue st)]). split.
      * rewrite Hs', Hqs, <- app_assoc. reflexivity.
      * rewrite length_app. cbn. lia.
    + lia.
    + exists (evs ++ evs'). split_and!.
      * rewrite Hh', Hh, <- app_assoc. reflexivity.
      * rewrite Hw', Hw, <- app_assoc. unfold recorded_waits.
        now rewrite omap_app.
      * rewrite length_app. lia.
      * rewrite length_app. lia.
      * apply Forall_app. split.
        -- eapply Forall_impl; [exact Hev|]. cbn.
           intros ev (d & q0 & Hd & Hq0 & Hon). exists d, q0. split_and!; auto.
        -- eapply Forall_impl; [exact Hev'|]. cbn.
           intros ev Hon. exists n, q. rewrite <- Hf. split_and!; auto.
    + rewrite Hq'. 
      assert (Hsub : Forall (fun e => (e <= n)%nat \/ e ∈ st_queue st0) (drop (Nat.min (cap_of p) (length q)) q)).
      { apply Forall_drop. exact Hqn. }
      eapply Forall_impl; [exact Hsub|]. cbn. intros e [?|?]; [left; lia|now right].
Qed.

(** The loop reaches day [m] only through every earlier day, and the
    recorded queue sizes only grow at the end. *)
Lemma run_days_prefix (st0 : State) (n m : nat) (stm : State) :
  (n <= m)%nat ->
  run_days Math_exp fuel p m st0 = Done stm ->
  exists stn qs,
    run_days Math_exp fuel p n st0 = Done stn /\
    st_queueSizes stm = st_queueSizes stn ++ qs.
Proof.
  revert stm. induction m as [|m IH]; intros stm Hle Hm.
  - assert (n = 0)%nat as -> by lia.
    exists stm, []. now rewrite app_nil_r.
  - destruct (decide (n = S m)) as [->|Hne].
    + exists stm, []. now rewrite app_nil_r.
    + cbn in Hm.
      destruct (run_days Math_exp fuel p m st0) as [st1| |] eqn:Hrun;
        cbn in Hm; try discriminate.
      destruct (IH st1 ltac:(lia) eq_refl) as (stn & qs & Hn & Hqs).
      apply day_spec in Hm.
      destruct Hm as (_ & _ & _ & _ & Hs & _).
      exists stn, (qs ++ [length (st_queue stm)]). split; [exact Hn|].
      now rewrite Hs, Hqs, <- app_assoc.
Qed.

(** [simulate] returns exactly when the array is created and the day loop
    comes to its end. *)
Lemma simulate_Done (r : Result) :
  simulate Math_exp fuel p = Done r <->
  exists futureAdds st,
    new_Array_fill0 (days p + rebookDelay p + 2)%Q = Done futureAdds /\
    run_days Math_exp fuel p (horizon p) (initial p futureAdds) = Done st /\
    r = summarise st.
Proof.
  unfold simulate, run, run_until.
  destruct (new_Array_fill0 _) as [fa| |] eqn:Hfa; cbn.
  - destruct (run_days _ _ _ _ _) as [st| |] eqn:Hrun; cbn.
    + split.
      * intros [= <-]. exists fa, st. auto.
      * intros (fa' & st' & [= <-] & Hrun' & ->). congruence.
    + split; [discriminate|]. intros (? & ? & [= <-] & ? & _). congruence.
    + split; [discriminate|]. intros (? & ? & [= <-] & ? & _). congruence.
  - split; [discriminate|]. intros (? & ? & ? & _). discriminate.
  - split; [discriminate|]. intros (? & ? & ? & _). discriminate.
Qed.

End Days.

(** ** The array of future arrivals *)

Lemma new_Array_fill0_Done (len : Q) (arr : list nat) :
  new_Array_fill0 len = Done arr ->
  (Qnat (length arr) == len)%Q /\ arr = replicate (length arr) 0%nat.
Proof.
  unfold new_Array_fill0.
  destruct (JS.is_integer len) eqn:Hint; cbn; [|discriminate].
  destruct (Qle_bool 0 len) eqn:H0; cbn; [|discriminate].
  destruct (Qle_bool len _); [|discriminate].
  intros [= <-]. rewrite length_replicate. split; [|reflexivity].
  apply Qeq_bool_eq in Hint. apply Qle_bool_iff in H0.
  unfold Qnat. rewrite Z2Nat.id; [now symmetry|].
  change 0 with (Qfloor 0). now apply Qfloor_resp_le.
Qed.

(** Every simulated day lies strictly before [days]. *)
Lemma horizon_lt (p : Params) (d : nat) :
  (d < horizon p)%nat -> (Qnat d < days p)%Q.
Proof.
  unfold horizon, Qnat. intros Hd.
  apply Qle_lt_trans with (inject_Z (Qceiling (days p) - 1)); [|apply Qceiling_lt].
  rewrite <- Zle_Qle. lia.
Qed.

(** With [rebookDelay >= -2] the array has a slot for every simulated
    day, and with [rebookDelay >= 0] for every return day too. *)
Lemma futureAdds_covers_days (p : Params) (arr : list nat) (d : nat) :
  new_Array_fill0 (days p + rebookDelay p + 2)%Q = Done arr ->
  (- (2) <= rebookDelay p)%Q ->
  (d < horizon p)%nat ->
  (d < length arr)%nat.
Proof.
  intros Harr Hrd Hd. apply new_Array_fill0_Done in Harr as [Hlen _].
  apply horizon_lt in Hd.
  assert (H : (Qnat d < Qnat (length arr))%Q).
  { lra. }
  unfold Qnat in H. rewrite <- Zlt_Qlt in H. lia.
Qed.

Lemma futureAdds_covers_returns (p : Params) (arr : list nat) (d : nat) :
  new_Array_fill0 (days p + rebookDelay p + 2)%Q = Done arr ->
  (0 <= rebookDelay p)%Q ->
  (d < horizon p)%nat ->
  (d + floor0 (rebookDelay p) < length arr)%nat.
Proof.
  intros Harr Hrd Hd. apply new_Array_fill0_Done in Harr as [Hlen _].
  apply horizon_lt in Hd.
  assert (Hfl : 0 <= Qfloor (rebookDelay p)).
  { change 0 with (Qfloor 0). now apply Qfloor_resp_le. }
  assert (H : (inject_Z (Z.of_nat d + Qfloor (rebookDelay p)) < Qnat (length arr))%Q).
  { rewrite inject_Z_plus. pose proof (Qfloor_le (rebookDelay p)).
    fold (Qnat d). lra. }
  unfold Qnat in H. rewrite <- Zlt_Qlt in H.
  unfold floor0. lia.
Qed.

(** ** Conservation of the queue *)

Section Conservation.

Variable Math_exp : Q -> Q.
Variable fuel : nat.
Variable p : Params.

(** After at least one day the last recorded size is the length of the
    queue. *)
Lemma last_queueSize (st0 : State) (n : nat) (st : State) :
  run_days Math_exp fuel p (S n) st0 = Done st ->
  st_queueSizes st !! (length (st_queueSizes st0) + n)%nat
  = Some (length (st_queue st)).
Proof.
  cbn. destruct (run_days Math_exp fuel p n st0) as [st1| |] eqn:Hrun;
    cbn; try discriminate.
  intros Hday. apply run_days_reached in Hrun.
  destruct Hrun as [_ (qs & Hqs & Hlen) _ _ _].
  apply day_spec in Hday. destruct Hday as (_ & _ & _ & _ & Hs & _).
  rewrite Hs, Hqs.
  rewrite lookup_app_r; rewrite length_app, Hlen; [|lia].
  rewrite Nat.sub_diag. reflexivity.
Qed.

(** The states around day [d] of a run that came to its end. *)
Lemma around_day (futureAdds : list nat) (stN : State) (d : nat) :
  new_Array_fill0 (days p + rebookDelay p + 2)%Q = Done futureAdds ->
  run_days Math_exp fuel p (horizon p) (initial p futureAdds) = Done stN ->
  (d < horizon p)%nat ->
  exists st st',
    run_until Math_exp fuel p d = Done st /\
    run_until Math_exp fuel p (S d) = Done st' /\
    day Math_exp fuel p d st = Done st' /\
    length (st_futureAdds st) = length futureAdds /\
    length (st_queue st) = previous_size (st_queueSizes stN) d /\
    length (st_queue st') = nth d (st_queueSizes stN) 0%nat.
Proof.
  intros Harr HN Hd. unfold run_until. rewrite Harr. cbn.
  assert (Hle : (S d <= horizon p)%nat) by lia.
  destruct (run_days_prefix _ _ _ _ _ _ _ Hle HN)
    as (st' & qs' & Hrun' & Hqs').
  pose proof Hrun' as Hlast. apply last_queueSize in Hlast. cbn in Hlast.
  pose proof Hrun' as Hday. cbn in Hday.
  destruct (run_days Math_exp fuel p d (initial p futureAdds))
    as [st| |] eqn:Hrun; cbn in Hday; try discriminate.
  exists st, st'. split_and!; auto.
  - apply run_days_reached in Hrun. now destruct Hrun.
  - destruct d as [|d']; cbn.
    + cbn in Hrun. now injection Hrun as <-.
    + pose proof Hrun as Hl. apply last_queueSize in Hl. cbn in Hl.
      apply day_spec in Hday. destruct Hday as (_ & _ & _ & _ & Hs & _).
      rewrite Hqs', Hs, <- app_assoc.
      symmetry. apply nth_lookup_Some with (d := 0%nat).
      now apply lookup_app_l_Some.
  - symmetry. apply nth_lookup_Some with (d := 0%nat).
    rewrite Hqs'. now apply lookup_app_l_Some.
Qed.

(** On a day whose [arrivals] is a number the queue is conserved; on a
    day whose [arrivals] is [NaN] nobody enters it. *)
Lemma conservation_cases (r : Result) (d : nat) :
  simulate Math_exp fuel p = Done r ->
  (d < horizon p)%nat ->
  exists k served,
    poisson_draw Math_exp fuel p d = Some k /\
    servedThisDay Math_exp fuel p d = Some served /\
    match arrivals Math_exp fuel p d with
    | Some a =>
        (exists f, a = k + f)%nat /\
        queueLengthBeforeService Math_exp fuel p d
        = Some (previous_size (queueSizes r) d + a)%nat /\
        (nth d (queueSizes r) 0 + served = previous_size (queueSizes r) d + a)%nat /\
        served = Nat.min (cap_of p) (previous_size (queueSizes r) d + a)
    | None =>
        (nth d (queueSizes r) 0 + served = previous_size (queueSizes r) d)%nat /\
        served = Nat.min (cap_of p) (previous_size (queueSizes r) d)
    end.
Proof.
  intros Hsim Hd. apply simulate_Done in Hsim as (fa & stN & Harr & HN & ->).
  destruct (around_day fa stN d Harr HN Hd)
    as (st & st' & Hst & Hst' & Hday & Hfa & Hprev & Hnth).
  apply day_spec in Hday.
  destruct Hday as (k & g & Hpo & Hq & _ & _ & Hu & _).
  unfold poisson_draw, servedThisDay, arrivals, queueLengthBeforeService,
    arrivals, poisson_draw.
  rewrite Hst, Hst', Hpo. cbn.
  exists k, (st_usedSlots st' - st_usedSlots st)%nat. split_and!; auto.
  cbn in Hnth, Hprev. rewrite <- Hnth, <- Hprev, Hq, length_drop.
  unfold arrivals_of in *.
  destruct (st_futureAdds st !! d) as [f|]; cbn in *.
  - rewrite length_app, length_replicate in *. split_and!; eauto; lia.
  - split; lia.
Qed.

(** [arrivals] is a number on every day for which [futureAdds] has a
    slot. *)
Lemma arrivals_is_Some (r : Result) (d : nat) :
  simulate Math_exp fuel p = Done r ->
  (d < horizon p)%nat ->
  (- (2) <= rebookDelay p)%Q ->
  is_Some (arrivals Math_exp fuel p d).
Proof.
  intros Hsim Hd Hrd.
  apply simulate_Done in Hsim as (fa & stN & Harr & HN & ->).
  destruct (around_day fa stN d Harr HN Hd)
    as (st & st' & Hst & _ & Hday & Hfa & _).
  apply day_spec in Hday. destruct Hday as (k & g & Hpo & _).
  unfold arrivals, poisson_draw. rewrite Hst, Hpo. cbn.
  pose proof (futureAdds_covers_days p fa d Harr Hrd Hd) as Hlt.
  rewrite <- Hfa in Hlt. apply lookup_lt_is_Some_2 in Hlt as [f Hf].
  unfold arrivals_of. rewrite Hf. cbn. eauto.
Qed.

End Conservation.

(** ** The summary statistics *)

Lemma sort_waits_sorted (ws : list Z) : StronglySorted Z.le (sort_waits ws).
Proof. apply StronglySorted_merge_sort; try apply _. Qed.

Lemma sort_waits_permutation (ws : list Z) : sort_waits ws ≡ₚ ws.
Proof. apply merge_sort_Permutation. Qed.

Lemma sort_waits_length (ws : list Z) : length (sort_waits ws) = length ws.
Proof. apply Permutation_length, sort_waits_permutation. Qed.

(** In an ascending array a later index holds a larger value. *)
Lemma sorted_lookup_le (ws : list Z) (i j : nat) (a b : Z) :
  StronglySorted Z.le ws ->
  (i <= j)%nat -> ws !! i = Some a -> ws !! j = Some b -> a <= b.
Proof.
  intros Hs. revert i j. induction Hs as [|x ws Hs IH Hx]; intros i j Hij Hi Hj.
  - discriminate.
  - destruct i as [|i], j as [|j]; cbn in *.
    + injection Hi as <-. injection Hj as <-. lia.
    + injection Hi as <-. rewrite Forall_forall in Hx.
      apply Hx. eapply list_elem_of_lookup_2, Hj.
    + lia.
    + eapply IH; [|exact Hi|exact Hj]. lia.
Qed.

Lemma quantile_index_range (n : nat) (q : Q) :
  (0 < n)%nat -> (0 <= q)%Q -> (q <= 1)%Q ->
  0 <= quantile_index n q <= Z.of_nat n - 1.
Proof.
  intros Hn H0 H1. unfold quantile_index.
  assert (Hm : (0 <= inject_Z (Z.of_nat n - 1))%Q).
  { change 0%Q with (inject_Z 0). rewrite <- Zle_Qle. lia. }
  split.
  - change 0 with (Qfloor 0). apply Qfloor_resp_le. now apply Qmult_le_0_compat.
  - rewrite <- (Qfloor_Z (Z.of_nat n - 1)) at 2. apply Qfloor_resp_le.
    rewrite <- (Qmult_1_r (inject_Z (Z.of_nat n - 1))) at 2.
    rewrite !(Qmult_comm (inject_Z (Z.of_nat n - 1))).
    now apply Qmult_le_compat_r.
Qed.

Lemma quantile_index_mono (n : nat) (q1 q2 : Q) :
  (0 < n)%nat -> (q1 <= q2)%Q -> quantile_index n q1 <= quantile_index n q2.
Proof.
  intros Hn Hq. unfold quantile_index. apply Qfloor_resp_le.
  rewrite !(Qmult_comm (inject_Z (Z.of_nat n - 1))).
  apply Qmult_le_compat_r; [exact Hq|].
  change 0%Q with (inject_Z 0). rewrite <- Zle_Qle. lia.
Qed.

(** For [q] in [0, 1] and a nonempty array, [quantile] returns the element
    at that index. *)
Lemma quantile_in_range (ws : list Z) (q : Q) :
  ws <> [] -> (0 <= q)%Q -> (q <= 1)%Q ->
  exists w,
    ws !! Z.to_nat (quantile_index (length ws) q) = Some w /\
    quantile ws q = JNum w.
Proof.
  intros Hne H0 H1.
  assert (Hn : (0 < length ws)%nat) by (destruct ws; [congruence|cbn; lia]).
  pose proof (quantile_index_range _ q Hn H0 H1) as Hr.
  destruct (lookup_lt_is_Some_2 ws (Z.to_nat (quantile_index (length ws) q)))
    as [w Hw]; [lia|].
  exists w. split; [exact Hw|].
  unfold quantile.
  destruct (Nat.eqb_spec (length ws) 0); [lia|].
  unfold index. destruct (Z.ltb_spec (quantile_index (length ws) q) 0); [lia|].
  now rewrite Hw.
Qed.

Lemma utilisation_of_bounds (usedSlots totalSlots : nat) :
  (usedSlots <= totalSlots)%nat ->
  (0 <= utilisation_of usedSlots totalSlots)%Q /\
  (utilisation_of usedSlots totalSlots <= 1)%Q.
Proof.
  intros Hle. unfold utilisation_of.
  destruct (Nat.ltb_spec 0 totalSlots) as [Hpos|]; [|split; discriminate].
  assert (Ht : (0 < Qnat totalSlots)%Q).
  { unfold Qnat. change 0%Q with (inject_Z 0). rewrite <- Zlt_Qlt. lia. }
  assert (Hu : (0 <= Qnat usedSlots)%Q).
  { unfold Qnat. change 0%Q with (inject_Z 0). rewrite <- Zle_Qle. lia. }
  assert (Hut : (Qnat usedSlots <= Qnat totalSlots)%Q).
  { unfold Qnat. rewrite <- Zle_Qle. lia. }
  split.
  - apply Qle_shift_div_l; [exact Ht|]. now rewrite Qmult_0_l.
  - apply Qle_shift_div_r; [exact Ht|]. now rewrite Qmult_1_l.
Qed.

(** ** The Poisson loop as a first passage *)

Section PoissonSpec.

Context {G : Type}.
Variable rand : G -> Q * G.
Variable Math_exp : Q -> Q.
Variable Number_mul : Q -> Q -> Q.

Lemma after_draws_S (n : nat) (p : Q) (s : G) :
  after_draws rand Number_mul (S n) p s
  = after_draws rand Number_mul n (Number_mul p (fst (rand s))) (snd (rand s)).
Proof. cbn. now destruct (rand s). Qed.

(** The loop returns [k + n] exactly when the accumulator first drops to
    [L] or below at draw [n + 1], and the bound allows [n + 1] draws. *)
Lemma poisson_loop_spec (fuel : nat) (L : Q) (k : nat) (p : Q) (s : G)
    (m : nat) (s' : G) :
  poisson_loop rand Number_mul fuel L k p s = Some (m, s') <->
  exists n,
    (n < fuel)%nat /\ m = (k + n)%nat /\
    (forall j, (1 <= j <= n)%nat -> (L < fst (after_draws rand Number_mul j p s))%Q) /\
    (fst (after_draws rand Number_mul (S n) p s) <= L)%Q /\
    s' = snd (after_draws rand Number_mul (S n) p s).
Proof.
  revert k p s. induction fuel as [|fuel IH]; intros k p s.
  - cbn. split; [discriminate|]. intros (n & Hn & _). lia.
  - cbn [poisson_loop]. destruct (rand s) as [r s1] eqn:Hr.
    assert (Hstep : forall j, after_draws rand Number_mul (S j) p s
                              = after_draws rand Number_mul j (Number_mul p r) s1).
    { intros j. rewrite after_draws_S, Hr. reflexivity. }
    destruct (Qle_bool (Number_mul p r) L) eqn:Hle.
    + apply Qle_bool_iff in Hle. split.
      * intros [= <- <-]. exists 0%nat. rewrite Hstep. cbn.
        split_and!; auto; try lia.
      * intros (n & Hn & -> & Hgt & Hdrop & ->).
        destruct n as [|n].
        -- rewrite Hstep. cbn. do 2 f_equal. lia.
        -- specialize (Hgt 1%nat ltac:(lia)). rewrite Hstep in Hgt. cbn in Hgt.
           exfalso. eapply Qlt_not_le; eassumption.
    + assert (Hgt1 : (L < Number_mul p r)%Q).
      { apply Qnot_le_lt. intros H. apply Qle_bool_iff in H. congruence. }
      rewrite IH. split.
      * intros (n & Hn & -> & Hgt & Hdrop & ->). exists (S n).
        split_and!; try lia.
        -- intros [|j] Hj; [lia|]. rewrite Hstep.
           destruct j as [|j]; [exact Hgt1|]. apply Hgt. lia.
        -- now rewrite Hstep.
        -- now rewrite Hstep.
      * intros (n & Hn & -> & Hgt & Hdrop & ->).
        destruct n as [|n].
        -- rewrite Hstep in Hdrop. cbn in Hdrop.
           exfalso. eapply Qlt_not_le; eassumption.
        -- exists n. rewrite Hstep in Hdrop. split_and!; try lia; auto.
           ++ intros j Hj. rewrite <- Hstep. apply Hgt. lia.
           ++ now rewrite Hstep.
Qed.

(** More iterations allowed, same answer. *)
Lemma poisson_fuel_mono (fuel fuel' : nat) (lambda : Q) (s : G) (x : nat * G) :
  (fuel <= fuel')%nat ->
  poisson rand Math_exp Number_mul fuel lambda s = Some x ->
  poisson rand Math_exp Number_mul fuel' lambda s = Some x.
Proof.
  intros Hle. unfold poisson. destruct (Qle_bool lambda 0); [auto|].
  destruct x as [m s']. rewrite !poisson_loop_spec.
  intros (n & Hn & H). exists n. split; [lia|exact H].
Qed.

(** A loop that reaches its bound found the accumulator above [L] after
    each draw. *)
Lemma poisson_loop_None (fuel : nat) (L : Q) (k : nat) (p : Q) (s : G) :
  poisson_loop rand Number_mul fuel L k p s = None ->
  forall j, (1 <= j <= fuel)%nat -> (L < fst (after_draws rand Number_mul j p s))%Q.
Proof.
  revert k p s. induction fuel as [|fuel IH]; intros k p s Hnone j Hj; [lia|].
  cbn [poisson_loop] in Hnone. destruct j as [|j]; [lia|].
  rewrite after_draws_S. destruct (rand s) as [r s1]. cbn.
  destruct (Qle_bool (Number_mul p r) L) eqn:Hle; [discriminate|].
  destruct j as [|j].
  - cbn. apply Qnot_le_lt. intros H. apply Qle_bool_iff in H. congruence.
  - eapply IH; [exact Hnone|lia].
Qed.

End PoissonSpec.

(** ** The generator on seed 42 *)

(** The first three draws of [mulberry32(42)] are [0.6011037519201636],
    [0.44829055899754167] and [0.8524657934904099]: these numerators over
    [2^32]. *)
Example mulberry32_seed_42 :
  let a1 := snd (mulberry32_next (mulberry32 42)) in
  let a2 := snd (mulberry32_next a1) in
  let a3 := snd (mulberry32_next a2) in
  (mulberry32_bits a1, mulberry32_bits a2, mulberry32_bits a3)
  = (2581720956, 1925393290, 3661312704).
Proof. vm_compute. reflexivity. Qed.

(** ** Termination of the Poisson loop with the exact product *)

Section PoissonTermination.

Context {G : Type}.
Variable rand : G -> Q * G.
Variable eps : Q.
Hypothesis eps_pos : (0 < eps)%Q.
Hypothesis rand_range :
  forall s, (0 <= fst (rand s))%Q /\ (fst (rand s) <= 1 - eps)%Q.



End PoissonTermination.

Lemma mulberry32_bits_range (a : Z) : 0 <= mulberry32_bits a < 2 ^ 32.
Proof.
  unfold mulberry32_bits, JS.ushr at 1, JS.ToUint32.
  change (0 mod 32) with 0. rewrite Z.shiftr_0_r.
  apply Z.mod_pos_bound. lia.
Qed.

Lemma mulberry32_next_range (a : Z) :
  (0 <= fst (mulberry32_next a))%Q /\
  (fst (mulberry32_next a) <= 1 - mulberry32_gap)%Q.
Proof.
  unfold mulberry32_next. cbn [fst].
  pose proof (mulberry32_bits_range (binary64_integer (a + 0x6D2B79F5))) as [H0 H1].
  set (b := mulberry32_bits (binary64_integer (a + 0x6D2B79F5))) in *.
  assert (Hb0 : (0 <= inject_Z b)%Q).
  { change 0%Q with (inject_Z 0). now rewrite <- Zle_Qle. }
  assert (Hb1 : (inject_Z b <= inject_Z (2 ^ 32 - 1))%Q).
  { rewrite <- Zle_Qle. lia. }
  split.
  - apply Qle_shift_div_l; [reflexivity|]. now rewrite Qmult_0_l.
  - apply Qle_shift_div_r; [reflexivity|].
    eapply Qle_trans; [exact Hb1|]. discriminate.
Qed.


Lemma mulberry32_next_unit (a : Z) :
  (0 <= fst (mulberry32_next a))%Q /\ (fst (mulberry32_next a) <= 1)%Q.
Proof.
  destruct (mulberry32_next_range a) as [H0 H1]. split; [exact H0|].
  eapply Qle_trans; [exact H1|]. discriminate.
Qed.

(** Up to [2^53] the state of the generator is the exact sum. *)
Lemma binary64_integer_exact (n : Z) : n <= 2 ^ 53 -> binary64_integer n = n.
Proof.
  intros Hn. unfold binary64_integer.
  destruct (Z.leb_spec n (2 ^ 53)); [reflexivity|lia].
Qed.

Lemma mulberry32_states_exact
    (Number_mul : Q -> Q -> Q) (n : nat) (p : Q) (a : Z) :
  a + Z.of_nat n * 1831565813 <= 2 ^ 53 ->
  snd (after_draws mulberry32_next Number_mul n p a)
  = a + Z.of_nat n * 1831565813.
Proof.
  revert p a. induction n as [|n IH]; intros p a Ha.
  - cbn. lia.
  - cbn [after_draws]. unfold mulberry32_next at 1.
    rewrite binary64_integer_exact by lia.
    cbv zeta. rewrite IH by lia. lia.
Qed.

(** The sums of the generator stay below [2^85 + 2^31], far from the
    largest binary64 value, and are rounded to at most [2^85]. *)
Lemma binary64_integer_bounded (n : Z) :
  0 <= n <= 2 ^ 85 + 2 ^ 31 -> 0 <= binary64_integer n <= 2 ^ 85.
Proof.
  intros Hn. unfold binary64_integer.
  destruct (Z.leb_spec n (2 ^ 53)) as [Hle|Hgt]; [lia|].
  cbv zeta.
  pose proof (Z.log2_spec n ltac:(lia)) as [Hlo Hhi].
  set (l := Z.log2 n) in *.
  assert (Hl53 : 53 <= l).
  { apply Z.log2_le_pow2; lia. }
  assert (Hl85 : l <= 85).
  { assert (l < 86); [|lia]. apply Z.log2_lt_pow2; lia. }
  set (m' := if n mod 2 ^ (l - 52) <? 2 ^ (l - 52 - 1) then n / 2 ^ (l - 52)
             else if 2 ^ (l - 52 - 1) <? n mod 2 ^ (l - 52) then n / 2 ^ (l - 52) + 1
             else if Z.even (n / 2 ^ (l - 52)) then n / 2 ^ (l - 52)
             else n / 2 ^ (l - 52) + 1).
  assert (HP : 0 < 2 ^ (l - 52)) by (apply Z.pow_pos_nonneg; lia).
  assert (Hm0 : 0 <= n / 2 ^ (l - 52)) by (apply Z.div_pos; lia).
  destruct (Z.eq_dec l 85) as [E|N].
  - subst m'. clear HP Hm0. rewrite E in *.
    change (2 ^ (85 - 52)) with 8589934592.
    change (2 ^ (85 - 52 - 1)) with 4294967296.
    assert (Hm : n / 8589934592 = 2 ^ 52).
    { symmetry. apply Z.div_unique with (n - 2 ^ 85); lia. }
    assert (Hr : n mod 8589934592 = n - 2 ^ 85).
    { symmetry. apply Z.mod_unique with (2 ^ 52); lia. }
    rewrite Hr, Hm.
    destruct (Z.ltb_spec (n - 2 ^ 85) 4294967296); lia.
  - assert (Hm : n / 2 ^ (l - 52) < 2 ^ 53).
    { apply Z.div_lt_upper_bound; [exact HP|].
      rewrite <- Z.pow_add_r by lia.
      replace (l - 52 + 53) with (Z.succ l) by lia. exact Hhi. }
    assert (Hm' : 0 <= m' <= 2 ^ 53).
    { subst m'. repeat match goal with
                       | |- context [if ?b then _ else _] => destruct b
                       end; lia. }
    split; [apply Z.mul_nonneg_nonneg; lia|].
    apply Z.le_trans with (2 ^ 53 * 2 ^ (l - 52)).
    + apply Z.mul_le_mono_nonneg_r; lia.
    + rewrite <- Z.pow_add_r by lia. apply Z.pow_le_mono_r; lia.
Qed.

Lemma mulberry32_state_bounded (a : Z) :
  0 <= a <= 2 ^ 85 -> 0 <= snd (mulberry32_next a) <= 2 ^ 85.
Proof.
  intros Ha. unfold mulberry32_next. cbn [snd].
  apply binary64_integer_bounded. lia.
Qed.

(** Beyond [2^53] the sum is rounded.  After 4917758 calls from seed 42 the
    state is still exact; the next call finds the odd sum 9007199260973109,
    keeps 9007199260973108 and returns [2543212789 / 2^32], where the exact
    sum would give [2345769536 / 2^32]. *)
Example mulberry32_seed_42_rounded :
  42 + 4917758 * 1831565813 = 9007197429407296 /\
  mulberry32_next 9007197429407296
  = ((2543212789 # 4294967296)%Q, 9007199260973108) /\
  mulberry32_bits (9007197429407296 + 1831565813) = 2345769536.
Proof. vm_compute. auto. Qed.

(** ** Rounding to binary64, and the end of the loop with the rounded product *)

(** [binary64_mul] gives the products of the Standard Library's [SFmul]:
    on [0.1 * 0.1], on an accumulator of a run times a draw of
    [mulberry32], on products that fall half way between two values, in
    the range below [2^-1022], and on one that underflows to [0]. *)
Example binary64_mul_SFmul :
  forallb binary64_mul_agrees
    [ (S754_finite false 3602879701896397 (- 55),
       S754_finite false 3602879701896397 (- 55));
      (S754_finite false 5414126170857451 (- 53),
       S754_finite false 2581720956 (- 32));
      (S754_finite false 7205759403792793 (- 56),
       S754_finite false 6004799503160661 (- 54));
      (S754_finite false 4503599627370497 (- 52),
       S754_finite false 4503599627370497 (- 52));
      (S754_finite false 9007199254740991 (- 53),
       S754_finite false 9007199254740991 (- 53));
      (S754_finite false 4503599627370496 (- 1074),
       S754_finite false 6755399441055744 (- 53));
      (S754_finite false 3 (- 1074), S754_finite false 4503599627370496 (- 53));
      (S754_finite false 5 (- 1074), S754_finite false 4503599627370496 (- 53));
      (S754_finite false 7 (- 1074), S754_finite false 6755399441055744 (- 53));
      (S754_finite false 1 (- 1074), S754_finite false 4503599627370496 (- 53));
      (S754_finite false 1 (- 1074), S754_finite false 4503599627370497 (- 53));
      (S754_finite false 6004799503160661 (- 600),
       S754_finite false 7205759403792793 (- 560)) ]
  = true.
Proof. vm_compute. reflexivity. Qed.

Lemma Qle_bool_false_lt (x y : Q) : Qle_bool x y = false -> (y < x)%Q.
Proof.
  intros H. apply Qnot_le_lt. intros Hle. apply Qle_bool_iff in Hle. congruence.
Qed.

Lemma Qlt_bool_true (x y : Q) : Qlt_bool x y = true -> (x < y)%Q.
Proof.
  unfold Qlt_bool. intros H. apply Qle_bool_false_lt.
  now destruct (Qle_bool y x).
Qed.

(** [round_half_even x] is an integer nearest to [x]. *)
Lemma round_half_even_near (x : Q) :
  (x - (1 # 2) <= inject_Z (round_half_even x))%Q /\
  (inject_Z (round_half_even x) <= x + (1 # 2))%Q.
Proof.
  unfold round_half_even.
  pose proof (Qfloor_le x) as Hlo. pose proof (Qlt_floor x) as Hhi.
  rewrite inject_Z_plus in Hhi. change (inject_Z 1) with 1%Q in Hhi.
  set (f := Qfloor x) in *. unfold Qlt_bool.
  destruct (Qle_bool (1 # 2) (x - inject_Z f)) eqn:H1; cbn [negb].
  - apply Qle_bool_iff in H1.
    destruct (Qle_bool (x - inject_Z f) (1 # 2)) eqn:H2; cbn [negb].
    + apply Qle_bool_iff in H2.
      destruct (Z.even f); [lra|].
      rewrite inject_Z_plus. change (inject_Z 1) with 1%Q. lra.
    + rewrite inject_Z_plus. change (inject_Z 1) with 1%Q. lra.
  - apply Qle_bool_false_lt in H1. lra.
Qed.

Lemma round_half_even_le (x : Q) (K : Z) :
  (x <= inject_Z K)%Q -> round_half_even x <= K.
Proof.
  intros Hx. unfold round_half_even.
  assert (Hf : Qfloor x <= K).
  { rewrite <- (Qfloor_Z K). now apply Qfloor_resp_le. }
  destruct (Z.eq_dec (Qfloor x) K) as [E|N].
  - assert (Hr : (x - inject_Z (Qfloor x) <= 0)%Q) by (rewrite E; lra).
    unfold Qlt_bool at 1.
    destruct (Qle_bool (1 # 2) (x - inject_Z (Qfloor x))) eqn:H1; cbn.
    + apply Qle_bool_iff in H1. lra.
    + lia.
  - destruct (Qlt_bool _ (1 # 2)); [lia|].
    destruct (Qlt_bool (1 # 2) _); [lia|].
    destruct (Z.even _); lia.
Qed.

Lemma round_half_even_nonneg (x : Q) : (0 <= x)%Q -> 0 <= round_half_even x.
Proof.
  intros Hx. unfold round_half_even.
  assert (Hf : 0 <= Qfloor x).
  { change 0 with (Qfloor 0). now apply Qfloor_resp_le. }
  destruct (Qlt_bool _ (1 # 2)); [lia|].
  destruct (Qlt_bool (1 # 2) _); [lia|].
  destruct (Z.even _); lia.
Qed.

Lemma round_half_even_half (x : Q) :
  (0 <= x)%Q -> (x <= 1 # 2)%Q -> round_half_even x = 0.
Proof.
  intros H0 H1. unfold round_half_even.
  assert (Hf : Qfloor x = 0).
  { assert (0 <= Qfloor x).
    { change 0 with (Qfloor 0). now apply Qfloor_resp_le. }
    assert (Qfloor x < 1); [|lia].
    rewrite Zlt_Qlt. apply Qle_lt_trans with x; [apply Qfloor_le|].
    change (inject_Z 1) with 1%Q. lra. }
  rewrite Hf. unfold Qlt_bool.
  destruct (Qle_bool (1 # 2) (x - inject_Z 0)) eqn:Ha; cbn; [|reflexivity].
  assert (Hb : Qle_bool (x - inject_Z 0) (1 # 2) = true).
  { apply Qle_bool_iff. change (inject_Z 0) with 0%Q. lra. }
  now rewrite Hb.
Qed.

Lemma pow2_pos (e : Z) : (0 < 2 ^ e)%Q.
Proof. apply Qpower_0_lt. reflexivity. Qed.

Lemma pow2_inject (k : Z) : 0 <= k -> (inject_Z (2 ^ k) == 2 ^ k)%Q.
Proof. intros Hk. now rewrite Zpower_Qpower. Qed.

(** [Qlog2 x] is at most the logarithm of [x]. *)
Lemma Qlog2_le (x : Q) : (0 < x)%Q -> (2 ^ Qlog2 x <= x)%Q.
Proof.
  intros Hx. unfold Qlog2.
  set (a := Z.log2 (Qnum x)). set (b := Z.log2 (Zpos (Qden x))).
  destruct (Qle_bool (2 ^ (a - b)) x) eqn:H; [now apply Qle_bool_iff|].
  assert (Hn : 0 < Qnum x).
  { destruct x as [n d]. unfold Qlt in Hx. cbn in *. lia. }
  assert (Ha : 2 ^ a <= Qnum x) by (apply Z.log2_spec; lia).
  assert (Hb : Zpos (Qden x) < 2 ^ (b + 1)).
  { pose proof (Z.log2_spec (Zpos (Qden x)) ltac:(lia)) as [_ Hlt].
    now rewrite <- Z.add_1_r in Hlt. }
  assert (Ha0 : 0 <= a) by apply Z.log2_nonneg.
  assert (Hb0 : 0 <= b) by apply Z.log2_nonneg.
  replace (a - b - 1) with (a - (b + 1)) by lia.
  rewrite Qpower_minus by discriminate.
  apply Qle_shift_div_r; [apply pow2_pos|].
  rewrite <- (pow2_inject a), <- (pow2_inject (b + 1)) by lia.
  apply Qle_trans with (inject_Z (Qnum x)); [now rewrite <- Zle_Qle|].
  apply Qle_trans with (x * inject_Z (Zpos (Qden x)))%Q.
  - destruct x as [n d]. unfold Qle, Qmult, inject_Z. cbn. lia.
  - apply Qmult_le_l; [exact Hx|]. rewrite <- Zle_Qle. lia.
Qed.

(** [Qlog2 x] is the whole part of the logarithm: [x] is below the next
    power of two. *)
Lemma Qlog2_lt (x : Q) : (0 < x)%Q -> (x < 2 ^ (Qlog2 x + 1))%Q.
Proof.
  intros Hx. unfold Qlog2.
  set (a := Z.log2 (Qnum x)). set (b := Z.log2 (Zpos (Qden x))).
  destruct (Qle_bool (2 ^ (a - b)) x) eqn:H.
  - assert (Hn : 0 < Qnum x).
    { destruct x as [n d]. unfold Qlt in Hx. cbn in *. lia. }
    assert (Ha : Qnum x < 2 ^ (a + 1)).
    { pose proof (Z.log2_spec (Qnum x) Hn) as [_ Hlt].
      now rewrite <- Z.add_1_r in Hlt. }
    assert (Hb : 2 ^ b <= Zpos (Qden x)) by (apply Z.log2_spec; lia).
    assert (Ha0 : 0 <= a) by apply Z.log2_nonneg.
    assert (Hb0 : 0 <= b) by apply Z.log2_nonneg.
    replace (a - b + 1) with (a + 1 - b) by lia.
    rewrite Qpower_minus by discriminate.
    apply Qlt_shift_div_l; [apply pow2_pos|].
    rewrite <- (pow2_inject (a + 1)), <- (pow2_inject b) by lia.
    apply Qle_lt_trans with (inject_Z (Qnum x)); [|now rewrite <- Zlt_Qlt].
    apply Qle_trans with (x * inject_Z (Zpos (Qden x)))%Q.
    + apply Qmult_le_l; [exact Hx|]. now rewrite <- Zle_Qle.
    + destruct x as [n d]. unfold Qle, Qmult, inject_Z. cbn. lia.
  - replace (a - b - 1 + 1) with (a - b) by lia.
    apply Qnot_le_lt. intros Hle. apply Qle_bool_iff in Hle. congruence.
Qed.

Lemma Qabs_nonneg_eq (x : Q) : (0 <= x)%Q -> Qabs x = x.
Proof.
  destruct x as [n d]. unfold Qle, Qabs. cbn. intros H.
  f_equal. apply Z.abs_eq. lia.
Qed.

Lemma Qeq_bool_false_pos (x : Q) : (0 <= x)%Q -> Qeq_bool x 0 = false -> (0 < x)%Q.
Proof.
  intros H0 Hz. apply Qnot_le_lt. intros Hle.
  assert (E : (x == 0)%Q) by lra. apply Qeq_bool_iff in E. congruence.
Qed.

(** [binary64_round x] is within half a unit in the last place of [x]. *)
Lemma binary64_round_near (x : Q) :
  ~ (x == 0)%Q ->
  (Qabs (binary64_round x - x)
   <= (1 # 2) * 2 ^ (Z.max (Qlog2 (Qabs x)) (- 1022) - 52))%Q.
Proof.
  intros Hx. unfold binary64_round.
  destruct (Qeq_bool x 0) eqn:Hz; [apply Qeq_bool_iff in Hz; contradiction|].
  cbv zeta. set (ulp := (2 ^ (Z.max (Qlog2 (Qabs x)) (- 1022) - 52))%Q).
  assert (Hulp : (0 < ulp)%Q) by apply pow2_pos.
  destruct (round_half_even_near (x / ulp)) as [Hlo Hhi].
  set (m := inject_Z (round_half_even (x / ulp))) in *.
  assert (Hx' : (x == x / ulp * ulp)%Q) by (field; lra).
  assert (Elo : ((x / ulp - (1 # 2)) * ulp == x - (1 # 2) * ulp)%Q)
    by (field; lra).
  assert (Ehi : ((x / ulp + (1 # 2)) * ulp == x + (1 # 2) * ulp)%Q)
    by (field; lra).
  apply (Qmult_le_compat_r _ _ ulp) in Hlo; [|lra].
  apply (Qmult_le_compat_r _ _ ulp) in Hhi; [|lra].
  rewrite Elo in Hlo. rewrite Ehi in Hhi.
  apply Qabs_Qle_condition. split; lra.
Qed.

Lemma binary64_round_nonneg (x : Q) : (0 <= x)%Q -> (0 <= binary64_round x)%Q.
Proof.
  intros Hx. unfold binary64_round. destruct (Qeq_bool x 0); [apply Qle_refl|].
  cbv zeta. apply Qmult_le_0_compat; [|apply Qlt_le_weak, pow2_pos].
  change 0%Q with (inject_Z 0). rewrite <- Zle_Qle.
  apply round_half_even_nonneg.
  apply Qle_shift_div_l; [apply pow2_pos|]. now rewrite Qmult_0_l.
Qed.

(** Rounding does not step over a power of two that binary64 holds. *)
Lemma binary64_round_le_pow2 (x : Q) (c : nat) :
  (c <= 1074)%nat -> (0 <= x)%Q -> (x <= 2 ^ (- Z.of_nat c))%Q ->
  (binary64_round x <= 2 ^ (- Z.of_nat c))%Q.
Proof.
  intros Hc H0 Hx. unfold binary64_round.
  destruct (Qeq_bool x 0) eqn:Hz; [apply Qlt_le_weak, pow2_pos|].
  apply Qeq_bool_false_pos in Hz; [|exact H0].
  rewrite (Qabs_nonneg_eq x H0). cbv zeta.
  assert (Hlog : Qlog2 x <= - Z.of_nat c).
  { apply (Qpower_le_compat_l_inv 2); [|reflexivity].
    eapply Qle_trans; [apply Qlog2_le; exact Hz|exact Hx]. }
  set (e := Z.max (Qlog2 x) (- 1022)).
  assert (He : e <= 52 - Z.of_nat c) by lia.
  set (K := 2 ^ (52 - Z.of_nat c - e)).
  assert (HK : (inject_Z K * 2 ^ (e - 52) == 2 ^ (- Z.of_nat c))%Q).
  { unfold K. rewrite pow2_inject by lia.
    rewrite <- Qpower_plus by discriminate. f_equiv. lia. }
  rewrite <- HK. apply Qmult_le_compat_r; [|apply Qlt_le_weak, pow2_pos].
  rewrite <- Zle_Qle. apply round_half_even_le.
  apply Qle_shift_div_r; [apply pow2_pos|]. now rewrite HK.
Qed.

(** A result of at most half the smallest positive value is [0]. *)
Lemma binary64_round_underflow (x : Q) :
  (0 <= x)%Q -> (x <= 2 ^ (- 1075))%Q -> (binary64_round x == 0)%Q.
Proof.
  intros H0 Hx. unfold binary64_round.
  destruct (Qeq_bool x 0) eqn:Hz; [reflexivity|].
  apply Qeq_bool_false_pos in Hz; [|exact H0].
  rewrite (Qabs_nonneg_eq x H0). cbv zeta.
  assert (Hlog : Qlog2 x <= - 1075).
  { apply (Qpower_le_compat_l_inv 2); [|reflexivity].
    eapply Qle_trans; [apply Qlog2_le; exact Hz|exact Hx]. }
  rewrite Z.max_r by lia. change (- 1022 - 52) with (- 1074).
  rewrite round_half_even_half.
  - apply Qmult_0_l.
  - apply Qle_shift_div_l; [apply pow2_pos|]. now rewrite Qmult_0_l.
  - apply Qle_shift_div_r; [apply pow2_pos|].
    eapply Qle_trans; [exact Hx|].
    assert (E : ((1 # 2) * 2 ^ (- 1074) == 2 ^ (- 1075))%Q).
    { change (1 # 2)%Q with (2 ^ (- 1))%Q.
      rewrite <- Qpower_plus by discriminate. reflexivity. }
    rewrite E. apply Qle_refl.
Qed.

Lemma halved_nonneg (c : nat) : (0 <= halved c)%Q.
Proof.
  unfold halved. destruct (c <=? 1074)%nat; [|apply Qle_refl].
  apply Qlt_le_weak, pow2_pos.
Qed.

(** One more factor: the bound stays, and is halved by a factor of at most
    [1/2]. *)
Lemma halved_step (c : nat) (p r : Q) :
  (0 <= p)%Q -> (p <= halved c)%Q -> (0 <= r)%Q -> (r <= 1)%Q ->
  (0 <= binary64_mul p r)%Q /\
  (binary64_mul p r
   <= halved (c + (if Qle_bool r (1 # 2) then 1 else 0)))%Q.
Proof.
  intros Hp0 Hp Hr0 Hr1. unfold binary64_mul.
  assert (Hx0 : (0 <= p * r)%Q) by now apply Qmult_le_0_compat.
  split; [now apply binary64_round_nonneg|].
  assert (Hxp : (p * r <= p)%Q).
  { rewrite <- (Qmult_1_r p) at 2. rewrite !(Qmult_comm p).
    now apply Qmult_le_compat_r. }
  unfold halved in Hp. destruct (Nat.leb_spec c 1074) as [Hc|Hc].
  - destruct (Qle_bool r (1 # 2)) eqn:Hhalf.
    + apply Qle_bool_iff in Hhalf.
      assert (Hx : (p * r <= 2 ^ (- Z.of_nat (c + 1)))%Q).
      { replace (- Z.of_nat (c + 1)) with (- Z.of_nat c + - 1) by lia.
        rewrite Qpower_plus by discriminate.
        change (2 ^ (- 1))%Q with (1 # 2)%Q.
        apply Qle_trans with (p * (1 # 2))%Q.
        - rewrite !(Qmult_comm p). now apply Qmult_le_compat_r.
        - apply Qmult_le_compat_r; [exact Hp|discriminate]. }
      unfold halved. destruct (Nat.leb_spec (c + 1) 1074) as [Hc1|Hc1].
      * now apply binary64_round_le_pow2.
      * assert (c = 1074%nat) by lia. subst c.
        rewrite binary64_round_underflow; [apply Qle_refl|exact Hx0|exact Hx].
    + rewrite Nat.add_0_r. unfold halved.
      destruct (Nat.leb_spec c 1074) as [_|Hc']; [|lia].
      apply binary64_round_le_pow2; [exact Hc|exact Hx0|lra].
  - assert (E : (p * r == 0)%Q).
    { assert (p == 0)%Q by lra. rewrite H. apply Qmult_0_l. }
    unfold binary64_round. apply Qeq_bool_iff in E. rewrite E.
    apply halved_nonneg.
Qed.

Section Halving.

Context {G : Type}.
Variable rand : G -> Q * G.
Hypothesis rand_unit : forall s, (0 <= fst (rand s))%Q /\ (fst (rand s) <= 1)%Q.

Lemma after_draws_halved (n c : nat) (p : Q) (s : G) :
  (0 <= p)%Q -> (p <= halved c)%Q ->
  (0 <= fst (after_draws rand binary64_mul n p s))%Q /\
  (fst (after_draws rand binary64_mul n p s)
   <= halved (c + small_draws rand n s))%Q.
Proof.
  revert c p s. induction n as [|n IH]; intros c p s Hp0 Hp.
  - cbn. rewrite Nat.add_0_r. auto.
  - cbn [after_draws small_draws].
    destruct (rand_unit s) as [Hr0 Hr1].
    destruct (rand s) as [r s1]. cbn [fst] in Hr0, Hr1.
    destruct (halved_step c p r Hp0 Hp Hr0 Hr1) as [Hq0 Hq].
    rewrite Nat.add_assoc. now apply IH.
Qed.

(** The binary64 accumulator is at or below every threshold that [halved]
    of the number of small draws is at or below: the loop ends, a
    threshold of [0] included. *)
Lemma poisson_loop_binary64_returns (L : Q) (n fuel k : nat) (s : G) :
  (halved (small_draws rand n s) <= L)%Q ->
  (1 <= n <= fuel)%nat ->
  is_Some (poisson_loop rand binary64_mul fuel L k 1 s).
Proof.
  intros HL Hn.
  destruct (poisson_loop rand binary64_mul fuel L k 1 s) as [x|] eqn:Hloop;
    [eauto|].
  exfalso.
  pose proof (poisson_loop_None rand binary64_mul _ _ _ _ _ Hloop n Hn)
    as Habove.
  destruct (after_draws_halved n 0 1 s) as [_ Hle].
  - discriminate.
  - apply Qle_refl.
  - cbn [Nat.add] in Hle. lra.
Qed.

End Halving.



(** ** Independence of the representation and of the iteration bound *)

#[global] Instance Qlt_bool_comp : Proper (Qeq ==> Qeq ==> eq) Qlt_bool.
Proof.
  intros x x' Hx y y' Hy. unfold Qlt_bool.
  now rewrite (Qleb_comp _ _ Hy _ _ Hx).
Qed.

#[global] Instance truncate_comp : Proper (Qeq ==> eq) JS.truncate.
Proof.
  intros x x' Hx. unfold JS.truncate.
  rewrite (Qfloor_comp _ _ Hx), (Qceiling_comp _ _ Hx).
  now rewrite (Qleb_comp 0%Q 0%Q (Qeq_refl 0%Q) _ _ Hx).
Qed.

#[global] Instance is_integer_comp : Proper (Qeq ==> eq) JS.is_integer.
Proof.
  intros x x' Hx. unfold JS.is_integer.
  rewrite (Qfloor_comp _ _ Hx). now apply Qeqb_comp.
Qed.

#[global] Instance floor0_comp : Proper (Qeq ==> eq) floor0.
Proof. intros x x' Hx. unfold floor0. now rewrite (Qfloor_comp _ _ Hx). Qed.

#[global] Instance new_Array_fill0_comp : Proper (Qeq ==> eq) new_Array_fill0.
Proof.
  intros x x' Hx. unfold new_Array_fill0.
  rewrite (Qfloor_comp _ _ Hx), (is_integer_comp _ _ Hx).
  rewrite (Qleb_comp 0%Q 0%Q (Qeq_refl 0%Q) _ _ Hx).
  now rewrite (Qleb_comp _ _ Hx _ _ (Qeq_refl _)).
Qed.

Section Determinism.

Variable Math_exp : Q -> Q.
Hypothesis Math_exp_comp : Proper (Qeq ==> Qeq) Math_exp.

Lemma poisson_loop_comp (fuel : nat) (L L' : Q) (k : nat) (p p' : Q) (s : Z) :
  (L == L')%Q -> (p == p')%Q ->
  poisson_loop mulberry32_next Qmult fuel L k p s
  = poisson_loop mulberry32_next Qmult fuel L' k p' s.
Proof.
  intros HL. revert k p p' s. induction fuel as [|fuel IH]; intros k p p' s Hp.
  - reflexivity.
  - cbn. destruct (mulberry32_next s) as [r s1].
    assert (Hpr : (p * r == p' * r)%Q) by now rewrite Hp.
    rewrite Hpr, HL. destruct (Qle_bool (p' * r) L'); [reflexivity|].
    now apply IH.
Qed.

Lemma poisson_comp (fuel : nat) (lambda lambda' : Q) (s : Z) :
  (lambda == lambda')%Q ->
  poisson mulberry32_next Math_exp Qmult fuel lambda s
  = poisson mulberry32_next Math_exp Qmult fuel lambda' s.
Proof.
  intros Hl. unfold poisson. rewrite Hl.
  destruct (Qle_bool lambda' 0); [reflexivity|].
  apply poisson_loop_comp; [|reflexivity]. now rewrite Hl.
Qed.

Variables p1 p2 : Params.
Hypothesis Hsame : same_numbers p1 p2.

Lemma serve_comp (d e : nat) (rest : list nat) (st : State) :
  serve p1 d e rest st = serve p2 d e rest st.
Proof.
  destruct Hsame as (_ & _ & Hdna & Hrate & Hdelay & _ & Hwarm & _).
  assert (Edna : forall r, Qlt_bool r (dnaRate p1 / 100)
                           = Qlt_bool r (dnaRate p2 / 100)).
  { intros r. apply Qlt_bool_comp; [reflexivity|]. now rewrite Hdna. }
  assert (Erate : forall r, Qlt_bool r (rebookRate p1 / 100)
                            = Qlt_bool r (rebookRate p2 / 100)).
  { intros r. apply Qlt_bool_comp; [reflexivity|]. now rewrite Hrate. }
  assert (Ewarm : Qle_bool (warmup p1) (Qnat d) = Qle_bool (warmup p2) (Qnat d)).
  { now apply Qleb_comp. }
  unfold serve. rewrite (floor0_comp _ _ Hdelay), Ewarm.
  destruct (mulberry32_next (st_rand st)) as [r g]. rewrite Edna.
  destruct (mulberry32_next g) as [r' g']. now rewrite Erate.
Qed.

Lemma service_loop_comp (d slots : nat) (st : State) :
  service_loop p1 d slots st = service_loop p2 d slots st.
Proof.
  revert st. induction slots as [|slots IH]; intros st; cbn; [reflexivity|].
  destruct (st_queue st); [reflexivity|]. now rewrite serve_comp, IH.
Qed.

Lemma day_comp (fuel d : nat) (st : State) :
  day Math_exp fuel p1 d st = day Math_exp fuel p2 d st.
Proof.
  destruct Hsame as (Harr & Hcap & _).
  unfold day, cap_of.
  rewrite (poisson_comp fuel _ _ (st_rand st) Harr), (floor0_comp _ _ Hcap).
  destruct (poisson _ _ _ _ _) as [[k g]|]; [|reflexivity].
  now rewrite service_loop_comp.
Qed.

Lemma run_days_comp (fuel n : nat) (st0 : State) :
  run_days Math_exp fuel p1 n st0 = run_days Math_exp fuel p2 n st0.
Proof.
  induction n as [|n IH]; cbn; [reflexivity|]. rewrite IH.
  destruct (run_days Math_exp fuel p2 n st0); cbn; auto using day_comp.
Qed.

Lemma simulate_comp (fuel : nat) :
  simulate Math_exp fuel p1 = simulate Math_exp fuel p2.
Proof.
  destruct Hsame as (_ & _ & _ & _ & Hdelay & Hdays & _ & Hseed).
  unfold simulate, run, run_until, horizon, initial, mulberry32.
  assert (Hlen : (days p1 + rebookDelay p1 + 2 == days p2 + rebookDelay p2 + 2)%Q)
    by now rewrite Hdelay, Hdays.
  rewrite (new_Array_fill0_comp _ _ Hlen), (Qceiling_comp _ _ Hdays),
    (truncate_comp _ _ Hseed).
  destruct (new_Array_fill0 _); cbn; [|reflexivity..].
  now rewrite run_days_comp.
Qed.

End Determinism.

Section Fuel.

Variable Math_exp : Q -> Q.
Variable p : Params.
Variables fuel fuel' : nat.
Hypothesis Hfuel : (fuel <= fuel')%nat.

Lemma day_fuel_mono (d : nat) (st st' : State) :
  day Math_exp fuel p d st = Done st' -> day Math_exp fuel' p d st = Done st'.
Proof.
  unfold day.
  destruct (poisson _ _ _ fuel _ _) as [x|] eqn:Hpo; [|discriminate].
  now rewrite (poisson_fuel_mono _ _ _ _ _ _ _ _ Hfuel Hpo).
Qed.

Lemma run_days_fuel_mono (n : nat) (st0 st : State) :
  run_days Math_exp fuel p n st0 = Done st ->
  run_days Math_exp fuel' p n st0 = Done st.
Proof.
  revert st. induction n as [|n IH]; intros st; cbn; [auto|].
  destruct (run_days Math_exp fuel p n st0) as [st1| |]; cbn; try discriminate.
  rewrite (IH st1 eq_refl). cbn. apply day_fuel_mono.
Qed.

Lemma simulate_fuel_mono (r : Result) :
  simulate Math_exp fuel p = Done r -> simulate Math_exp fuel' p = Done r.
Proof.
  rewrite !simulate_Done. intros (fa & st & Harr & Hrun & ->).
  exists fa, st. split_and!; auto using run_days_fuel_mono.
Qed.

End Fuel.

(** ** Runs and results *)

Section Runs.

Variable Math_exp : Q -> Q.
Variable fuel : nat.
Variable p : Params.

Lemma simulate_run (r : Result) :
  simulate Math_exp fuel p = Done r <->
  exists st, run Math_exp fuel p = Done st /\ r = summarise st.
Proof.
  unfold simulate. destruct (run Math_exp fuel p) as [st| |]; cbn.
  - split.
    + intros [= <-]. eauto.
    + intros (st' & [= <-] & ->). reflexivity.
  - split; [discriminate|]. intros (? & ? & _). discriminate.
  - split; [discriminate|]. intros (? & ? & _). discriminate.
Qed.

Lemma run_reached (st : State) :
  run Math_exp fuel p = Done st ->
  exists futureAdds,
    new_Array_fill0 (days p + rebookDelay p + 2)%Q = Done futureAdds /\
    reached p (initial p futureAdds) (horizon p) st.
Proof.
  unfold run, run_until.
  destruct (new_Array_fill0 _) as [fa| |]; cbn; try discriminate.
  intros Hrun. exists fa. split; [reflexivity|].
  eapply run_days_reached, Hrun.
Qed.

(** The day loop does not throw: a [RangeError] can only come from the
    creation of the array. *)
Lemma run_days_no_RangeError (n : nat) (st0 : State) :
  run_days Math_exp fuel p n st0 <> RangeError.
Proof.
  induction n as [|n IH]; cbn; [discriminate|].
  destruct (run_days Math_exp fuel p n st0) as [st| |]; cbn; try congruence.
  unfold day. destruct (poisson _ _ _ _ _) as [[k g]|]; discriminate.
Qed.

Lemma simulate_RangeError :
  simulate Math_exp fuel p = RangeError <->
  new_Array_fill0 (days p + rebookDelay p + 2)%Q = RangeError.
Proof.
  unfold simulate, run, run_until.
  destruct (new_Array_fill0 _) as [fa| |]; cbn.
  - pose proof (run_days_no_RangeError (horizon p) (initial p fa)) as H.
    destruct (run_days _ _ _ _ _); cbn; split; congruence.
  - tauto.
  - split; discriminate.
Qed.

End Runs.

(** The stand-in for [Math.exp] is a function of the Number it is given. *)
Lemma exp_series_comp (n : nat) (i : Z) (term term' acc acc' x x' : Q) :
  (term == term')%Q -> (acc == acc')%Q -> (x == x')%Q ->
  (exp_series n i term acc x == exp_series n i term' acc' x')%Q.
Proof.
  revert i term term' acc acc'.
  induction n as [|n IH]; intros i term term' acc acc' Ht Ha Hx; cbn.
  - exact Ha.
  - assert (Et : Qred (term * x / inject_Z i) = Qred (term' * x' / inject_Z i)).
    { apply Qred_complete. now rewrite Ht, Hx. }
    rewrite Et. apply IH; [reflexivity| |exact Hx].
    rewrite !Qred_correct. now rewrite Ha.
Qed.

#[global] Instance exp_taylor_comp : Proper (Qeq ==> Qeq) exp_taylor.
Proof.
  intros x x' Hx. unfold exp_taylor.
  rewrite (Qleb_comp 0%Q 0%Q (Qeq_refl 0%Q) _ _ Hx).
  destruct (Qle_bool 0 x').
  - now apply exp_series_comp.
  - apply Qinv_comp. apply exp_series_comp; try reflexivity. now rewrite Hx.
Qed.

(** * The properties the specification states *)

(** C1. Determinism: two invocations of [simulate] on the same eight
    Numbers return the same [queueSizes], the same [waits] and the same
    [metrics].  The invocations may hold the Numbers as different fractions
    and may be given different iteration bounds: whenever both return, they
    return the same record, and one throws exactly when the other does. *)
Theorem simulate_deterministic
    (Math_exp : Q -> Q) (Math_exp_comp : Proper (Qeq ==> Qeq) Math_exp)
    (fuel1 fuel2 : nat) (p1 p2 : Params) :
  same_numbers p1 p2 ->
  (simulate Math_exp fuel1 p1 = RangeError <->
   simulate Math_exp fuel2 p2 = RangeError) /\
  forall r1 r2,
    simulate Math_exp fuel1 p1 = Done r1 ->
    simulate Math_exp fuel2 p2 = Done r2 ->
    queueSizes r1 = queueSizes r2 /\
    waits r1 = waits r2 /\
    metrics r1 = metrics r2.
Proof.
  intros Hsame. split.
  - rewrite !simulate_RangeError.
    destruct Hsame as (_ & _ & _ & _ & Hdelay & Hdays & _).
    assert (Hlen : (days p1 + rebookDelay p1 + 2
                    == days p2 + rebookDelay p2 + 2)%Q)
      by now rewrite Hdelay, Hdays.
    now rewrite (new_Array_fill0_comp _ _ Hlen).
  - intros r1 r2 H1 H2.
    apply (simulate_fuel_mono _ _ fuel1 (Nat.max fuel1 fuel2)) in H1; [|lia].
    apply (simulate_fuel_mono _ _ fuel2 (Nat.max fuel1 fuel2)) in H2; [|lia].
    rewrite (simulate_comp Math_exp Math_exp_comp p1 p2 Hsame) in H1.
    rewrite H1 in H2. injection H2 as <-. auto.
Qed.

Lemma simulate_deterministic_witness :
  same_numbers small small_unreduced /\
  simulate exp_taylor 100 small = Done (summarise small_state) /\
  simulate exp_taylor 150 small_unreduced = Done (summarise small_state) /\
  queueSizes (summarise small_state) = queueSizes (summarise small_state) /\
  waits (summarise small_state) = waits (summarise small_state) /\
  metrics (summarise small_state) = metrics (summarise small_state).
Proof.
  assert (Hsame : same_numbers small small_unreduced).
  { unfold same_numbers; cbn. repeat split; reflexivity. }
  assert (H1 : simulate exp_taylor 100 small = Done (summarise small_state)).
  { vm_compute. reflexivity. }
  assert (H2 : simulate exp_taylor 150 small_unreduced
               = Done (summarise small_state)).
  { vm_compute. reflexivity. }
  split; [exact Hsame|]. split; [exact H1|]. split; [exact H2|].
  destruct (simulate_deterministic exp_taylor exp_taylor_comp 100 150
              small small_unreduced Hsame) as [_ Hsame_result].
  exact (Hsame_result _ _ H1 H2).
Defined.

(** C2. [simulate] throws on finite inputs.  With [rebookDelay = -5] and
    [days = 2] the call [new Array(days + rebookDelay + 2)] is
    [new Array(-1)], and with a delay of a day and a half it is
    [new Array(183.5)]: each raises a [RangeError] before the first day is
    simulated, whatever [Math.exp] computes. *)
Theorem simulate_throws_on_invalid_length (Math_exp : Q -> Q) (fuel : nat) :
  simulate Math_exp fuel negative_length = RangeError /\
  simulate Math_exp fuel fractional_delay = RangeError.
Proof. split; apply simulate_RangeError; vm_compute; reflexivity. Qed.

(** [arrivals] is [NaN] on a simulated day for which [futureAdds] has no
    slot. *)
Lemma arrivals_is_None
    (Math_exp : Q -> Q) (fuel : nat) (p : Params) (r : Result)
    (futureAdds : list nat) (d : nat) :
  simulate Math_exp fuel p = Done r ->
  new_Array_fill0 (days p + rebookDelay p + 2)%Q = Done futureAdds ->
  (d < horizon p)%nat ->
  (length futureAdds <= d)%nat ->
  arrivals Math_exp fuel p d = None.
Proof.
  intros Hsim Harr Hd Hlen.
  apply simulate_Done in Hsim as (fa & stN & Harr' & HN & ->).
  rewrite Harr in Harr'. injection Harr' as <-.
  destruct (around_day Math_exp fuel p futureAdds stN d Harr HN Hd)
    as (st & st' & Hst & _ & Hday & Hfa & _).
  apply day_spec in Hday. destruct Hday as (k & g & Hpo & _).
  unfold arrivals, poisson_draw. rewrite Hst, Hpo. cbn.
  unfold arrivals_of. rewrite lookup_ge_None_2; [reflexivity|lia].
Qed.

(** X3. Conservation of the queue on every day of a run whose [rebookDelay] is
    at least [-2], so that [futureAdds] has a slot for each simulated day:
    [queueSizes[d] = queueSizes[d-1] + arrivals(d) - servedThisDay(d)],
    where [arrivals(d)] is the Poisson draw plus [futureAdds[d]], and the
    number served is [min(cap, queue length before the service loop)]. *)
Theorem queue_conservation
    (Math_exp : Q -> Q) (fuel : nat) (p : Params) (r : Result) (d : nat) :
  simulate Math_exp fuel p = Done r ->
  (- (2) <= rebookDelay p)%Q ->
  (d < horizon p)%nat ->
  exists k f served,
    poisson_draw Math_exp fuel p d = Some k /\
    arrivals Math_exp fuel p d = Some (k + f)%nat /\
    servedThisDay Math_exp fuel p d = Some served /\
    queueLengthBeforeService Math_exp fuel p d
    = Some (previous_size (queueSizes r) d + (k + f))%nat /\
    Z.of_nat (nth d (queueSizes r) 0%nat)
    = Z.of_nat (previous_size (queueSizes r) d) + Z.of_nat (k + f) - Z.of_nat served /\
    served = Nat.min (cap_of p) (previous_size (queueSizes r) d + (k + f)).
Proof.
  intros Hsim Hrd Hd.
  destruct (arrivals_is_Some Math_exp fuel p r d Hsim Hd Hrd) as [a Ha].
  destruct (conservation_cases Math_exp fuel p r d Hsim Hd)
    as (k & served & Hk & Hs & Hcase).
  rewrite Ha in Hcase. destruct Hcase as ((f & ->) & Hbefore & Heq & Hmin).
  exists k, f, served. split_and!; auto; lia.
Qed.

Lemma queue_conservation_witness :
  simulate exp_taylor 100 small = Done (summarise small_state) /\
  exists k f served,
    poisson_draw exp_taylor 100 small 5 = Some k /\
    arrivals exp_taylor 100 small 5 = Some (k + f)%nat /\
    servedThisDay exp_taylor 100 small 5 = Some served /\
    queueLengthBeforeService exp_taylor 100 small 5
    = Some (previous_size (queueSizes (summarise small_state)) 5 + (k + f))%nat /\
    Z.of_nat (nth 5 (queueSizes (summarise small_state)) 0%nat)
    = Z.of_nat (previous_size (queueSizes (summarise small_state)) 5)
      + Z.of_nat (k + f) - Z.of_nat served /\
    served = Nat.min (cap_of small)
               (previous_size (queueSizes (summarise small_state)) 5 + (k + f)).
Proof.
  assert (H : simulate exp_taylor 100 small = Done (summarise small_state)).
  { vm_compute. reflexivity. }
  split; [exact H|].
  apply (queue_conservation exp_taylor 100 small _ 5 H).
  - discriminate.
  - vm_compute. lia.
Defined.

(** C3. Conservation fails when [futureAdds] is shorter than the horizon.
    With [rebookDelay = -5] and [days = 10] the array has seven slots; on
    the days 7, 8 and 9 [futureAdds[d]] is [undefined], [arrivals] is
    [NaN], and the people of the Poisson draw never enter the queue: the
    recorded size is the previous size less the number served. *)
Theorem arrivals_lost_on_uncovered_days
    (Math_exp : Q -> Q) (fuel : nat) (r : Result) (d : nat) :
  simulate Math_exp fuel negative_delay = Done r ->
  (7 <= d < 10)%nat ->
  exists k served,
    poisson_draw Math_exp fuel negative_delay d = Some k /\
    arrivals Math_exp fuel negative_delay d = None /\
    servedThisDay Math_exp fuel negative_delay d = Some served /\
    (nth d (queueSizes r) 0 + served = previous_size (queueSizes r) d)%nat.
Proof.
  intros Hsim Hd.
  assert (Hh : (d < horizon negative_delay)%nat).
  { change (horizon negative_delay) with 10%nat. lia. }
  assert (Hnone : arrivals Math_exp fuel negative_delay d = None).
  { eapply arrivals_is_None with (futureAdds := replicate 7 0%nat); eauto.
    cbn. lia. }
  destruct (conservation_cases Math_exp fuel negative_delay r d Hsim Hh)
    as (k & served & Hk & Hs & Hcase).
  rewrite Hnone in Hcase. destruct Hcase as [Heq _].
  exists k, served. auto.
Qed.

Lemma arrivals_lost_on_uncovered_days_witness :
  simulate exp_taylor 100 negative_delay = Done (summarise negative_delay_state) /\
  poisson_draw exp_taylor 100 negative_delay 8 = Some 4%nat /\
  queueSizes (summarise negative_delay_state) !! 7%nat = Some 6%nat /\
  queueSizes (summarise negative_delay_state) !! 8%nat = Some 5%nat /\
  exists k served,
    poisson_draw exp_taylor 100 negative_delay 8 = Some k /\
    arrivals exp_taylor 100 negative_delay 8 = None /\
    servedThisDay exp_taylor 100 negative_delay 8 = Some served /\
    (nth 8 (queueSizes (summarise negative_delay_state)) 0 + served
     = previous_size (queueSizes (summarise negative_delay_state)) 8)%nat.
Proof.
  assert (H : simulate exp_taylor 100 negative_delay
              = Done (summarise negative_delay_state)).
  { vm_compute. reflexivity. }
  split; [exact H|].
  split; [vm_compute; reflexivity|].
  split; [vm_compute; reflexivity|].
  split; [vm_compute; reflexivity|].
  apply (arrivals_lost_on_uncovered_days exp_taylor 100 _ 8 H). lia.
Defined.

(** C4. The statistics of a finalized [waits].  The returned array is
    sorted ascending.  When it is empty, [quantile(q)], [meanWait] and the
    [within] fractions are all [null].  When it has [n > 0] elements,
    [quantile(q)] is the array read at index [floor((n - 1) * q)], which for
    [q] in [0, 1] is an element of the array (no interpolation), and
    [medianWait = quantile(0.5)], [p90Wait = quantile(0.9)]. *)
Theorem quantile_nearest_rank (st : State) (q : Q) :
  let r := summarise st in
  let ws := waits r in
  let n := length ws in
  StronglySorted Z.le ws /\
  ws ≡ₚ st_waits st /\
  medianWait (metrics r) = quantile ws (1 # 2) /\
  p90Wait (metrics r) = quantile ws (9 # 10) /\
  (n = 0%nat ->
     quantile ws q = JNull /\
     meanWait (metrics r) = None /\
     within14 (metrics r) = None /\
     within28 (metrics r) = None /\
     within42 (metrics r) = None /\
     forall t, within ws t = None) /\
  ((0 < n)%nat ->
     quantile ws q = index ws (Qfloor (inject_Z (Z.of_nat n - 1) * q)) /\
     ((0 <= q)%Q -> (q <= 1)%Q ->
        exists w,
          ws !! Z.to_nat (Qfloor (inject_Z (Z.of_nat n - 1) * q)) = Some w /\
          quantile ws q = JNum w)).
Proof.
  cbn zeta. cbn [summarise waits metrics medianWait p90Wait meanWait
                  within14 within28 within42].
  split_and!; auto using sort_waits_sorted, sort_waits_permutation.
  - intros Hn. unfold quantile, mean, within. rewrite Hn. cbn. split_and!; auto.
  - intros Hn. split.
    + unfold quantile, quantile_index.
      destruct (Nat.eqb_spec (length (sort_waits (st_waits st))) 0); [lia|].
      reflexivity.
    + intros H0 H1. apply quantile_in_range; auto.
      intros Hnil. rewrite Hnil in Hn. cbn in Hn. lia.
Qed.

Lemma quantile_nearest_rank_witness :
  (0 < length (waits (summarise small_state)))%nat /\
  (0 <= 9 # 10)%Q /\ (9 # 10 <= 1)%Q /\
  quantile (waits (summarise small_state)) (9 # 10)
  = index (waits (summarise small_state)) 5 /\
  exists w,
    waits (summarise small_state) !! 5%nat = Some w /\
    quantile (waits (summarise small_state)) (9 # 10) = JNum w.
Proof.
  assert (Hn : (0 < length (waits (summarise small_state)))%nat)
    by (vm_compute; lia).
  assert (H0 : (0 <= 9 # 10)%Q) by discriminate.
  assert (H1 : (9 # 10 <= 1)%Q) by discriminate.
  destruct (quantile_nearest_rank small_state (9 # 10))
    as (_ & _ & _ & _ & _ & Hpos).
  destruct (Hpos Hn) as [Hq Hw].
  split_and!; [exact Hn|exact H0|exact H1|exact Hq|exact (Hw H0 H1)].
Defined.

(** C5. Utilisation.  Both counters run over the whole horizon, warm-up
    days included: [totalSlots] is [cap] for each simulated day and
    [usedSlots] counts every service of the run.  The returned
    [utilisation] is [usedSlots / totalSlots] when [totalSlots > 0] and [0]
    otherwise, and lies between [0] and [1]. *)
Theorem utilisation_bounds
    (Math_exp : Q -> Q) (fuel : nat) (p : Params) (r : Result) :
  (0 <= capacityPerDay p)%Q ->
  (0 <= arrivalRate p)%Q ->
  simulate Math_exp fuel p = Done r ->
  exists st,
    run Math_exp fuel p = Done st /\
    st_totalSlots st = (horizon p * cap_of p)%nat /\
    st_usedSlots st = length (st_history st) /\
    utilisation (metrics r)
    = (if (0 <? st_totalSlots st)%nat
       then Qnat (st_usedSlots st) / Qnat (st_totalSlots st) else 0)%Q /\
    (0 <= utilisation (metrics r))%Q /\
    (utilisation (metrics r) <= 1)%Q.
Proof.
  intros _ _ Hsim. apply simulate_run in Hsim as (st & Hrun & ->).
  exists st. split; [exact Hrun|].
  apply run_reached in Hrun as (fa & _ & Hreach).
  destruct Hreach as [_ _ Ht (evs & Hh & _ & Hu & Hle & _) _]. cbn in *.
  subst. split_and!; auto.
  - apply utilisation_of_bounds. lia.
  - apply utilisation_of_bounds. lia.
Qed.

Lemma utilisation_bounds_witness :
  (0 <= capacityPerDay small)%Q /\
  (0 <= arrivalRate small)%Q /\
  simulate exp_taylor 100 small = Done (summarise small_state) /\
  exists st,
    run exp_taylor 100 small = Done st /\
    st_totalSlots st = (horizon small * cap_of small)%nat /\
    st_usedSlots st = length (st_history st) /\
    utilisation (metrics (summarise small_state))
    = (if (0 <? st_totalSlots st)%nat
       then Qnat (st_usedSlots st) / Qnat (st_totalSlots st) else 0)%Q /\
    (0 <= utilisation (metrics (summarise small_state)))%Q /\
    (utilisation (metrics (summarise small_state)) <= 1)%Q.
Proof.
  assert (Hc : (0 <= capacityPerDay small)%Q) by discriminate.
  assert (Ha : (0 <= arrivalRate small)%Q) by discriminate.
  assert (H : simulate exp_taylor 100 small = Done (summarise small_state)).
  { vm_compute. reflexivity. }
  split_and!; auto.
  exact (utilisation_bounds exp_taylor 100 small _ Hc Ha H).
Defined.

(** C6. Warm-up exclusion.  The returned [waits] are, up to the order, the
    values [d - enteredDay] of the attended services of the run on days
    [d >= warmup]: the test is on the day of service.  Each element is such
    a value, and [nSeen] is their number. *)
Theorem waits_are_post_warmup_attendances
    (Math_exp : Q -> Q) (fuel : nat) (p : Params) (r : Result) :
  simulate Math_exp fuel p = Done r ->
  exists st,
    run Math_exp fuel p = Done st /\
    waits r ≡ₚ recorded_waits p (st_history st) /\
    nSeen (metrics r) = length (waits r) /\
    nSeen (metrics r) = length (recorded_waits p (st_history st)) /\
    forall w, w ∈ waits r ->
      exists d enteredDay,
        Attended d enteredDay ∈ st_history st /\
        (warmup p <= Qnat d)%Q /\
        (d < horizon p)%nat /\
        (enteredDay <= d)%nat /\
        w = Z.of_nat d - Z.of_nat enteredDay.
Proof.
  intros Hsim. apply simulate_run in Hsim as (st & Hrun & ->).
  exists st. split; [exact Hrun|].
  apply run_reached in Hrun as (fa & _ & Hreach).
  destruct Hreach as [_ _ _ (evs & Hh & Hw & _ & _ & Hev) _]. cbn in *.
  subst evs.
  assert (Hperm : sort_waits (st_waits st) ≡ₚ recorded_waits p (st_history st)).
  { rewrite sort_waits_permutation, Hw. reflexivity. }
  split_and!; auto.
  - now rewrite Hperm.
  - intros w Hin. rewrite Hperm in Hin.
    apply list_elem_of_omap in Hin as (ev & Hin & Hrec).
    rewrite Forall_forall in Hev.
    destruct (Hev ev Hin) as (d' & q & Hd' & Hq & Hon).
    destruct ev as [d e| | |]; cbn in Hrec; try discriminate.
    destruct (Qle_bool (warmup p) (Qnat d)) eqn:Hwarm; [|discriminate].
    injection Hrec as <-. cbn in Hon. destruct Hon as [Heq He]. subst d'.
    exists d, e. split_and!; auto.
    + now apply Qle_bool_iff.
    + rewrite Forall_forall in Hq. destruct (Hq e He) as [?|Hnil]; [lia|].
      now apply elem_of_nil in Hnil.
Qed.

Lemma waits_are_post_warmup_attendances_witness :
  simulate exp_taylor 100 small = Done (summarise small_state) /\
  exists st,
    run exp_taylor 100 small = Done st /\
    waits (summarise small_state) ≡ₚ recorded_waits small (st_history st) /\
    nSeen (metrics (summarise small_state)) = length (waits (summarise small_state)) /\
    nSeen (metrics (summarise small_state))
    = length (recorded_waits small (st_history st)) /\
    forall w, w ∈ waits (summarise small_state) ->
      exists d enteredDay,
        Attended d enteredDay ∈ st_history st /\
        (warmup small <= Qnat d)%Q /\
        (d < horizon small)%nat /\
        (enteredDay <= d)%nat /\
        w = Z.of_nat d - Z.of_nat enteredDay.
Proof.
  assert (H : simulate exp_taylor 100 small = Done (summarise small_state)).
  { vm_compute. reflexivity. }
  split; [exact H|].
  exact (waits_are_post_warmup_attendances exp_taylor 100 small _ H).
Defined.

(** C7. [poisson] returns [0] at once, without a draw, when [lambda <= 0],
    whatever the source.  Otherwise, with a source of draws in [[0, 1]], it
    multiplies an accumulator that starts at [1] by one draw after the
    other, each product rounded as binary64 rounds it, and returns the
    number of draws less one: the answer is [n] exactly when the
    accumulator is still above [Math.exp(-lambda)] after each of the first
    [n] draws and at or below it after draw [n + 1], and then every bound
    that allows [n + 1] iterations gives that answer and leaves the source
    in the state after [n + 1] draws.  For every [lambda], also one so large
    that [Math.exp(-lambda)] is [0], the loop ends as soon as enough of the
    draws were at most [1/2] to halve the accumulator down to the
    threshold, and at the latest when 1075 of them were: the accumulator
    is then [0]. *)
Theorem poisson_knuth
    {G : Type} (rand : G -> Q * G) (Math_exp : Q -> Q) (lambda : Q) (s : G) :
  ((lambda <= 0)%Q ->
     forall fuel,
       poisson rand Math_exp binary64_mul fuel lambda s = Some (0%nat, s)) /\
  ((forall s0, (0 <= fst (rand s0))%Q /\ (fst (rand s0) <= 1)%Q) ->
   ((0 < lambda)%Q ->
      forall fuel n s',
        poisson rand Math_exp binary64_mul fuel lambda s = Some (n, s') <->
        (n < fuel)%nat /\
        (forall j, (1 <= j <= n)%nat ->
           (Math_exp (- lambda)
            < fst (after_draws rand binary64_mul j 1 s))%Q) /\
        (fst (after_draws rand binary64_mul (S n) 1 s)
         <= Math_exp (- lambda))%Q /\
        s' = snd (after_draws rand binary64_mul (S n) 1 s)) /\
   (forall n fuel,
      (halved (small_draws rand n s) <= Math_exp (- lambda))%Q ->
      (1 <= n <= fuel)%nat ->
      is_Some (poisson rand Math_exp binary64_mul fuel lambda s))).
Proof.
  split; [|intros Hunit; split].
  - intros Hle fuel. unfold poisson.
    apply Qle_bool_iff in Hle. now rewrite Hle.
  - intros Hpos fuel n s'. unfold poisson.
    destruct (Qle_bool lambda 0) eqn:Hle.
    + apply Qle_bool_iff in Hle. exfalso. eapply Qlt_not_le; eassumption.
    + rewrite poisson_loop_spec. split.
      * intros (n' & Hn & -> & H). cbn. exact (conj Hn H).
      * intros (Hn & H). exists n. cbn. split_and!; auto; apply H.
  - intros n fuel HL Hn. unfold poisson.
    destruct (Qle_bool lambda 0); [eauto|].
    now apply (poisson_loop_binary64_returns rand Hunit _ n).
Qed.

Lemma poisson_knuth_witness :
  (0 < 800)%Q /\
  poisson mulberry32_next exp_underflow binary64_mul 1200 800 42
  = Some (758%nat, 1390158452109) /\
  (forall j, (1 <= j <= 758)%nat ->
     (exp_underflow (- (800))
      < fst (after_draws mulberry32_next binary64_mul j 1 42%Z))%Q) /\
  (fst (after_draws mulberry32_next binary64_mul 759 1 42%Z)
   <= exp_underflow (- (800)))%Q /\
  (forall fuel, (2200 <= fuel)%nat ->
     is_Some (poisson mulberry32_next exp_underflow binary64_mul fuel 800 42)).
Proof.
  assert (Hpos : (0 < 800)%Q) by reflexivity.
  assert (Hrun : poisson mulberry32_next exp_underflow binary64_mul 1200 800 42
                 = Some (758%nat, 1390158452109)) by (vm_compute; reflexivity).
  destruct (poisson_knuth mulberry32_next exp_underflow 800 42) as (_ & H).
  destruct (H mulberry32_next_unit) as (Hiff & Hend).
  pose proof Hrun as Hspec.
  apply (Hiff Hpos) in Hspec as (_ & Hgt & Hle & _).
  split; [exact Hpos|]. split; [exact Hrun|].
  split; [exact Hgt|]. split; [exact Hle|].
  intros fuel Hfuel. apply (Hend 2200%nat fuel).
  - vm_compute. discriminate.
  - lia.
Defined.

(** C8. With [capacityPerDay = 0] and a positive [arrivalRate] nobody is
    served: [waits] is empty and [queueSizes] never decreases. *)
Theorem zero_capacity_queue_only_grows
    (Math_exp : Q -> Q) (fuel : nat) (p : Params) (r : Result) :
  (capacityPerDay p == 0)%Q ->
  (0 < arrivalRate p)%Q ->
  simulate Math_exp fuel p = Done r ->
  waits r = [] /\
  length (queueSizes r) = horizon p /\
  forall i j,
    (i <= j)%nat -> (j < length (queueSizes r))%nat ->
    (nth i (queueSizes r) 0 <= nth j (queueSizes r) 0)%nat.
Proof.
  intros Hcap _ Hsim.
  assert (Hcap0 : cap_of p = 0%nat).
  { unfold cap_of. now rewrite (floor0_comp _ _ Hcap). }
  pose proof Hsim as Hsim'.
  apply simulate_run in Hsim' as (st & Hrun & ->).
  apply run_reached in Hrun as (fa & _ & Hreach).
  destruct Hreach as [_ (qs & Hqs & Hlen) _ (evs & _ & Hw & _ & Hle & _) _].
  cbn in *. subst qs.
  assert (Hstep : forall d, (S d < horizon p)%nat ->
            (nth d (st_queueSizes st) 0 <= nth (S d) (st_queueSizes st) 0)%nat).
  { intros d Hd.
    destruct (conservation_cases Math_exp fuel p _ (S d) Hsim Hd)
      as (k & served & _ & _ & Hcase).
    cbn in Hcase. rewrite Hcap0 in Hcase. cbn in Hcase.
    destruct (arrivals Math_exp fuel p (S d)); lia. }
  split_and!; auto.
  - rewrite Hw. destruct evs; [reflexivity|]. cbn in Hle. lia.
  - intros i j Hij Hj. induction Hij as [|j Hij IH]; [lia|].
    specialize (Hstep j ltac:(lia)). lia.
Qed.

Lemma zero_capacity_queue_only_grows_witness :
  (capacityPerDay zero_capacity == 0)%Q /\
  (0 < arrivalRate zero_capacity)%Q /\
  simulate exp_taylor 100 zero_capacity = Done (summarise zero_capacity_state) /\
  queueSizes (summarise zero_capacity_state) = [4; 8; 12; 15; 17; 18; 19; 22]%nat /\
  waits (summarise zero_capacity_state) = [] /\
  length (queueSizes (summarise zero_capacity_state)) = horizon zero_capacity /\
  forall i j,
    (i <= j)%nat -> (j < length (queueSizes (summarise zero_capacity_state)))%nat ->
    (nth i (queueSizes (summarise zero_capacity_state)) 0
     <= nth j (queueSizes (summarise zero_capacity_state)) 0)%nat.
Proof.
  assert (Hc : (capacityPerDay zero_capacity == 0)%Q) by reflexivity.
  assert (Ha : (0 < arrivalRate zero_capacity)%Q) by reflexivity.
  assert (H : simulate exp_taylor 100 zero_capacity
              = Done (summarise zero_capacity_state)).
  { vm_compute. reflexivity. }
  split; [exact Hc|]. split; [exact Ha|]. split; [exact H|].
  split; [reflexivity|].
  exact (zero_capacity_queue_only_grows exp_taylor 100 zero_capacity _ Hc Ha H).
Defined.

(** C9. On a nonempty finalized [waits] of a run the two quantiles are
    numbers and [medianWait = quantile(0.5) <= quantile(0.9) = p90Wait]. *)
Theorem median_le_p90
    (Math_exp : Q -> Q) (fuel : nat) (p : Params) (r : Result) :
  simulate Math_exp fuel p = Done r ->
  waits r <> [] ->
  exists m n,
    quantile (waits r) (1 # 2) = JNum m /\
    quantile (waits r) (9 # 10) = JNum n /\
    medianWait (metrics r) = JNum m /\
    p90Wait (metrics r) = JNum n /\
    m <= n.
Proof.
  intros Hsim Hne. apply simulate_run in Hsim as (st & _ & ->). cbn in *.
  set (ws := sort_waits (st_waits st)) in *.
  destruct (quantile_in_range ws (1 # 2) Hne) as (m & Hm & Hqm); try discriminate.
  destruct (quantile_in_range ws (9 # 10) Hne) as (n & Hn & Hqn); try discriminate.
  exists m, n. split_and!; auto.
  assert (Hlen : (0 < length ws)%nat) by (destruct ws; [congruence|cbn; lia]).
  eapply (sorted_lookup_le ws); [apply sort_waits_sorted| |exact Hm|exact Hn].
  pose proof (quantile_index_mono (length ws) (1 # 2) (9 # 10) Hlen) as Hmono.
  pose proof (quantile_index_range (length ws) (1 # 2) Hlen) as Hr.
  assert (quantile_index (length ws) (1 # 2) <= quantile_index (length ws) (9 # 10))
    by (apply Hmono; discriminate).
  assert (0 <= quantile_index (length ws) (1 # 2))
    by (apply Hr; discriminate).
  lia.
Qed.

Lemma median_le_p90_witness :
  simulate exp_taylor 100 small = Done (summarise small_state) /\
  waits (summarise small_state) <> [] /\
  exists m n,
    quantile (waits (summarise small_state)) (1 # 2) = JNum m /\
    quantile (waits (summarise small_state)) (9 # 10) = JNum n /\
    medianWait (metrics (summarise small_state)) = JNum m /\
    p90Wait (metrics (summarise small_state)) = JNum n /\
    m <= n.
Proof.
  assert (H : simulate exp_taylor 100 small = Done (summarise small_state)).
  { vm_compute. reflexivity. }
  assert (Hne : waits (summarise small_state) <> []).
  { vm_compute. discriminate. }
  split; [exact H|]. split; [exact Hne|].
  exact (median_le_p90 exp_taylor 100 small _ H Hne).
Defined.

(** C10. With a [rebookDelay] that is a non-negative integer and
    [days >= 1], every return day [d + rebookDelay] of a simulated day [d]
    is below [days + rebookDelay + 2], the length of [futureAdds]: the
    guard of the increment holds each time it is evaluated, and no service
    of the run ends in the branch that drops the rebooking. *)
Theorem rebooking_never_dropped
    (Math_exp : Q -> Q) (fuel : nat) (p : Params) (st : State) :
  JS.is_integer (rebookDelay p) = true ->
  (0 <= rebookDelay p)%Q ->
  (1 <= days p)%Q ->
  run Math_exp fuel p = Done st ->
  (Qnat (length (st_futureAdds st)) == days p + rebookDelay p + 2)%Q /\
  (forall d, (d < horizon p)%nat ->
     let returnDay := (d + floor0 (rebookDelay p))%nat in
     (Qnat returnDay == Qnat d + rebookDelay p)%Q /\
     (Qnat returnDay < days p + rebookDelay p + 2)%Q /\
     (returnDay <? length (st_futureAdds st))%nat = true) /\
  (forall ev, ev ∈ st_history st -> is_dropped ev = false).
Proof.
  intros Hint Hrd _ Hrun.
  apply run_reached in Hrun as (fa & Harr & Hreach).
  destruct Hreach as [Hf _ _ (evs & Hh & _ & _ & _ & Hev) _]. cbn in *.
  subst evs.
  pose proof (new_Array_fill0_Done _ _ Harr) as [Hlen _].
  assert (Hdelay : (Qnat (floor0 (rebookDelay p)) == rebookDelay p)%Q).
  { unfold JS.is_integer in Hint. apply Qeq_bool_eq in Hint.
    assert (0 <= Qfloor (rebookDelay p)).
    { change 0 with (Qfloor 0). now apply Qfloor_resp_le. }
    unfold Qnat, floor0. rewrite Z2Nat.id by lia.
    rewrite Z.max_r by lia. now symmetry. }
  assert (Hret : forall d, (Qnat (d + floor0 (rebookDelay p))
                            == Qnat d + rebookDelay p)%Q).
  { intros d. unfold Qnat in *. rewrite Nat2Z.inj_add, inject_Z_plus.
    now rewrite Hdelay. }
  split_and!.
  - now rewrite Hf.
  - intros d Hd. cbn zeta.
    pose proof (futureAdds_covers_returns p fa d Harr Hrd Hd) as Hlt.
    split_and!.
    + apply Hret.
    + rewrite Hret. pose proof (horizon_lt p d Hd). lra.
    + apply Nat.ltb_lt. lia.
  - intros ev Hin. rewrite Forall_forall in Hev.
    destruct (Hev ev Hin) as (d & q & Hd & _ & Hon).
    destruct ev; cbn in *; auto.
    destruct Hon as (-> & -> & Hge).
    pose proof (futureAdds_covers_returns p fa d Harr Hrd Hd). lia.
Qed.

Lemma rebooking_never_dropped_witness :
  JS.is_integer (rebookDelay small) = true /\
  (0 <= rebookDelay small)%Q /\
  (1 <= days small)%Q /\
  run exp_taylor 100 small = Done small_state /\
  (Qnat (length (st_futureAdds small_state))
   == days small + rebookDelay small + 2)%Q /\
  (forall d, (d < horizon small)%nat ->
     let returnDay := (d + floor0 (rebookDelay small))%nat in
     (Qnat returnDay == Qnat d + rebookDelay small)%Q /\
     (Qnat returnDay < days small + rebookDelay small + 2)%Q /\
     (returnDay <? length (st_futureAdds small_state))%nat = true) /\
  (forall ev, ev ∈ st_history small_state -> is_dropped ev = false).
Proof.
  assert (Hint : JS.is_integer (rebookDelay small) = true) by reflexivity.
  assert (Hrd : (0 <= rebookDelay small)%Q) by discriminate.
  assert (Hdays : (1 <= days small)%Q) by discriminate.
  assert (H : run exp_taylor 100 small = Done small_state).
  { vm_compute. reflexivity. }
  split; [exact Hint|]. split; [exact Hrd|]. split; [exact Hdays|].
  split; [exact H|].
  exact (rebooking_never_dropped exp_taylor 100 small _ Hint Hrd Hdays H).
Defined.


(** * Further properties of the code *)

(** ** The random source *)

(** X1. Every draw of [mulberry32] is a multiple [k / 2^32] with
    [0 <= k < 2^32], so it lies in [[0, 1)].  Each call adds [0x6D2B79F5]
    to the captured variable: exactly as long as the sum is at most
    [2^53], so that after [n] calls the variable has grown by [n] times
    that number, and rounded as binary64 rounds beyond, where it never
    passes [2^85]. *)
Theorem mulberry32_draw_unit_interval (a : Z) :
  (exists k, 0 <= k < 2 ^ 32 /\
             fst (mulberry32_next a) = (inject_Z k / inject_Z 4294967296)%Q) /\
  (0 <= fst (mulberry32_next a))%Q /\
  (fst (mulberry32_next a) < 1)%Q /\
  (a + 1831565813 <= 2 ^ 53 -> snd (mulberry32_next a) = a + 1831565813) /\
  (forall (Number_mul : Q -> Q -> Q) (n : nat) (p : Q),
     a + Z.of_nat n * 1831565813 <= 2 ^ 53 ->
     snd (after_draws mulberry32_next Number_mul n p a)
     = a + Z.of_nat n * 1831565813) /\
  (0 <= a <= 2 ^ 85 -> 0 <= snd (mulberry32_next a) <= 2 ^ 85).
Proof.
  destruct (mulberry32_next_range a) as [H0 H1].
  split_and!.
  - exists (mulberry32_bits (binary64_integer (a + 1831565813))).
    split; [apply mulberry32_bits_range|reflexivity].
  - exact H0.
  - eapply Qle_lt_trans; [exact H1|]. reflexivity.
  - intros Ha. unfold mulberry32_next. cbn [snd].
    now apply binary64_integer_exact.
  - intros Number_mul n p Ha. now apply mulberry32_states_exact.
  - apply mulberry32_state_bounded.
Qed.

(** The day loop reads the seed only through the state it starts from. *)
Lemma service_loop_with_seed (p : Params) (s : Q) (d slots : nat) (st : State) :
  service_loop (with_seed p s) d slots st = service_loop p d slots st.
Proof.
  revert st. induction slots as [|slots IH]; intros st; cbn; [reflexivity|].
  destruct (st_queue st) as [|e rest]; [reflexivity|].
  rewrite IH. reflexivity.
Qed.

Lemma run_days_with_seed
    (Math_exp : Q -> Q) (fuel : nat) (p : Params) (s : Q) (n : nat) (st0 : State) :
  run_days Math_exp fuel (with_seed p s) n st0 = run_days Math_exp fuel p n st0.
Proof.
  induction n as [|n IH]; cbn; [reflexivity|]. rewrite IH.
  destruct (run_days Math_exp fuel p n st0) as [st| |]; cbn; try reflexivity.
  unfold day. cbn [arrivalRate with_seed].
  destruct (poisson _ _ _ _ _) as [[k g]|]; [|reflexivity].
  unfold cap_of. cbn [capacityPerDay with_seed].
  now rewrite service_loop_with_seed.
Qed.

(** X2. The seed is read through [seed >>> 0]: two seeds with the same integer
    part modulo [2^32] give the same run, so [42.9] behaves as [42] and
    [42 - 2^32] as well. *)
Theorem seed_read_as_uint32
    (Math_exp : Q -> Q) (fuel : nat) (p : Params) (s1 s2 : Q) :
  JS.ToUint32 (JS.truncate s1) = JS.ToUint32 (JS.truncate s2) ->
  simulate Math_exp fuel (with_seed p s1) = simulate Math_exp fuel (with_seed p s2).
Proof.
  intros Hseed. unfold simulate, run, run_until, horizon.
  cbn [days rebookDelay with_seed].
  destruct (new_Array_fill0 _) as [fa| |]; cbn; try reflexivity.
  rewrite !run_days_with_seed.
  assert (Hinit : initial (with_seed p s1) fa = initial (with_seed p s2) fa).
  { unfold initial, mulberry32, JS.ushr. cbn [seed with_seed]. now rewrite Hseed. }
  now rewrite Hinit.
Qed.

Lemma seed_read_as_uint32_witness :
  JS.ToUint32 (JS.truncate (429 # 10)) = JS.ToUint32 (JS.truncate (- (4294967254))) /\
  simulate exp_taylor 100 (with_seed small (429 # 10))
  = simulate exp_taylor 100 (with_seed small (- (4294967254))) /\
  simulate exp_taylor 100 (with_seed small (429 # 10))
  = Done (summarise small_state).
Proof.
  assert (H : JS.ToUint32 (JS.truncate (429 # 10))
              = JS.ToUint32 (JS.truncate (- (4294967254)))) by reflexivity.
  split; [exact H|]. split.
  - exact (seed_read_as_uint32 exp_taylor 100 small _ _ H).
  - vm_compute. reflexivity.
Defined.

(** ** First in, first out *)

Lemma StronglySorted_snoc_le (l : list nat) (x : nat) :
  StronglySorted le l -> Forall (fun y => (y <= x)%nat) l ->
  StronglySorted le (l ++ [x]).
Proof.
  intros Hs Hle. apply StronglySorted_app. split_and!; auto.
  - intros y z Hy Hz. apply list_elem_of_singleton in Hz as ->.
    rewrite Forall_forall in Hle. auto.
  - repeat constructor.
Qed.

Lemma StronglySorted_app_replicate (l : list nat) (k x : nat) :
  StronglySorted le l -> Forall (fun y => (y <= x)%nat) l ->
  StronglySorted le (l ++ replicate k x).
Proof.
  intros Hs Hle. induction k as [|k IH]; cbn.
  - now rewrite app_nil_r.
  - rewrite replicate_cons_app, app_assoc.
    apply StronglySorted_snoc_le; [exact IH|].
    apply Forall_app. split; [exact Hle|].
    apply Forall_forall. intros y Hy. apply elem_of_replicate in Hy. lia.
Qed.

Lemma serve_fifo (p : Params) (d e : nat) (rest : list nat) (st : State) :
  st_queue st = e :: rest ->
  fifo d st -> fifo d (serve p d e rest st).
Proof.
  intros Hq (Hs & Hb & Hd & Hdb).
  destruct (serve_spec p d e rest st) as (Hq' & _ & _ & _ & _ & ev & Hh & _ & Hev).
  unfold fifo. rewrite Hq', Hh. rewrite Hq in Hs, Hb.
  unfold attended_entries in *. rewrite omap_app, map_app.
  change (map event_day [ev]) with [event_day ev].
  assert (Hday : event_day ev = d) by (destruct ev; cbn in Hev; tauto).
  assert (Hsub : omap attended_entry [ev] = [e] \/ omap attended_entry [ev] = []).
  { destruct ev as [d' e'| | |]; cbn; auto. left.
    cbn in Hev. destruct Hev as [_ He]. apply list_elem_of_singleton in He.
    now subst. }
  rewrite Hday. split_and!.
  - destruct Hsub as [-> | ->].
    + now rewrite <- app_assoc.
    + rewrite app_nil_r. apply StronglySorted_app in Hs as (H12 & H1 & H2).
      apply StronglySorted_app. split_and!; auto.
      * intros x y Hx Hy. apply H12; [exact Hx|]. apply elem_of_cons. now right.
      * now inversion H2.
  - apply Forall_app in Hb as [Hb1 Hb2]. inversion Hb2; subst.
    destruct Hsub as [-> | ->]; repeat (apply Forall_app; split); auto.
  - now apply StronglySorted_snoc_le.
  - apply Forall_app. split; [exact Hdb|]. repeat constructor.
Qed.

Lemma service_loop_fifo (p : Params) (d slots : nat) (st : State) :
  fifo d st -> fifo d (service_loop p d slots st).
Proof.
  revert st. induction slots as [|slots IH]; intros st Hf; cbn; [exact Hf|].
  destruct (st_queue st) as [|e rest] eqn:Hq; [exact Hf|].
  apply IH. now apply serve_fifo.
Qed.

Lemma day_fifo
    (Math_exp : Q -> Q) (fuel : nat) (p : Params) (d : nat) (st st' : State) :
  day Math_exp fuel p d st = Done st' ->
  (d = 0%nat \/ exists b, d = S b /\ fifo b st) ->
  st_history st = [] \/ (0 < d)%nat ->
  st_queue st = [] \/ (0 < d)%nat ->
  fifo d st'.
Proof.
  unfold day. destruct (poisson _ _ _ _ _) as [[k g]|]; [|discriminate].
  intros [= <-] Hprev Hh0 Hq0.
  match goal with |- fifo d {| st_rand := _; st_futureAdds := _;
                         st_queue := st_queue ?s; st_queueSizes := _;
                         st_waits := _; st_totalSlots := _;
                         st_usedSlots := _; st_history := st_history ?s |} =>
    enough (Hfin : fifo d s) by exact Hfin
  end.
  apply service_loop_fifo. unfold fifo. cbn.
  assert (Hold : StronglySorted le (attended_entries (st_history st) ++ st_queue st) /\
                 Forall (fun e => (e <= d)%nat)
                   (attended_entries (st_history st) ++ st_queue st) /\
                 StronglySorted le (map event_day (st_history st)) /\
                 Forall (fun x => (x <= d)%nat) (map event_day (st_history st))).
  { destruct Hprev as [-> | (b & -> & Hs & Hb & Hd & Hdb)].
    - destruct Hh0 as [-> | ?]; [|lia]. destruct Hq0 as [-> | ?]; [|lia].
      cbn. split_and!; constructor.
    - split_and!; auto.
      + eapply Forall_impl; [exact Hb|]. cbn. lia.
      + eapply Forall_impl; [exact Hdb|]. cbn. lia. }
  destruct Hold as (Hs & Hb & Hd & Hdb).
  unfold push_arrivals. destruct (arrivals_of _ _ _) as [a|].
  - rewrite app_assoc. split_and!; auto.
    + now apply StronglySorted_app_replicate.
    + apply Forall_app. split; [exact Hb|].
      apply Forall_forall. intros y Hy. apply elem_of_replicate in Hy. lia.
  - split_and!; auto.
Qed.

Lemma run_days_fifo
    (Math_exp : Q -> Q) (fuel : nat) (p : Params) (futureAdds : list nat)
    (n : nat) (st : State) :
  run_days Math_exp fuel p n (initial p futureAdds) = Done st ->
  match n with
  | O => st = initial p futureAdds
  | S b => fifo b st
  end.
Proof.
  revert st. induction n as [|n IH]; intros st Hrun.
  - cbn in Hrun. now injection Hrun as <-.
  - cbn in Hrun.
    destruct (run_days Math_exp fuel p n (initial p futureAdds)) as [st1| |];
      cbn in Hrun; try discriminate.
    specialize (IH st1 eq_refl).
    eapply day_fifo; [exact Hrun| | |].
    + destruct n as [|b]; [now left|right; eauto].
    + destruct n; [left; now subst|right; lia].
    + destruct n; [left; now subst|right; lia].
Qed.

(** X4. People are seen in the order they came.  In every run the entry days
    of the people who attended, listed in the order of service, never
    decrease; neither do the entry days left in the queue, and nobody queued
    came before somebody who attended. *)
Theorem served_first_in_first_out
    (Math_exp : Q -> Q) (fuel : nat) (p : Params) (st : State) :
  run Math_exp fuel p = Done st ->
  StronglySorted le (attended_entries (st_history st)) /\
  StronglySorted le (st_queue st) /\
  (forall a e, a ∈ attended_entries (st_history st) -> e ∈ st_queue st ->
               (a <= e)%nat) /\
  StronglySorted le (map event_day (st_history st)).
Proof.
  unfold run, run_until.
  destruct (new_Array_fill0 _) as [fa| |]; cbn; try discriminate.
  intros Hrun. apply run_days_fifo in Hrun.
  destruct (horizon p) as [|b].
  - subst st. cbn. split_and!; try constructor. intros a e Ha.
    now apply elem_of_nil in Ha.
  - destruct Hrun as (Hs & _ & Hd & _).
    apply StronglySorted_app in Hs as (H12 & H1 & H2). auto.
Qed.

Lemma served_first_in_first_out_witness :
  run exp_taylor 100 small = Done small_state /\
  attended_entries (st_history small_state) = [0; 0; 1; 1; 2; 3; 3; 4; 5]%nat /\
  StronglySorted le (attended_entries (st_history small_state)) /\
  StronglySorted le (st_queue small_state) /\
  (forall a e, a ∈ attended_entries (st_history small_state) ->
               e ∈ st_queue small_state -> (a <= e)%nat) /\
  StronglySorted le (map event_day (st_history small_state)).
Proof.
  assert (H : run exp_taylor 100 small = Done small_state).
  { vm_compute. reflexivity. }
  split; [exact H|]. split; [reflexivity|].
  exact (served_first_in_first_out exp_taylor 100 small _ H).
Defined.

(** ** No demand *)

Lemma service_loop_empty_queue (p : Params) (d slots : nat) (st : State) :
  st_queue st = [] -> service_loop p d slots st = st.
Proof. intros Hq. destruct slots; cbn; [reflexivity|]. now rewrite Hq. Qed.

Lemma run_days_idle
    (Math_exp : Q -> Q) (fuel : nat) (p : Params) (len n : nat) :
  (arrivalRate p <= 0)%Q ->
  run_days Math_exp fuel p n (initial p (replicate len 0%nat))
  = Done (idle_state p (replicate len 0%nat) n).
Proof.
  intros Hrate. apply Qle_bool_iff in Hrate.
  induction n as [|n IH]; cbn; [reflexivity|].
  rewrite IH. cbn. unfold day, poisson. rewrite Hrate. cbn.
  assert (Hpush : push_arrivals [] (arrivals_of 0 (replicate len 0%nat) n) n = []).
  { unfold arrivals_of. destruct (replicate len 0%nat !! n) as [f|] eqn:Hf; cbn.
    - apply lookup_replicate in Hf as [-> _]. reflexivity.
    - reflexivity. }
  rewrite Hpush, service_loop_empty_queue by reflexivity. cbn.
  unfold idle_state. do 2 f_equal.
  - change (replicate (S n) 0%nat) with (0%nat :: replicate n 0%nat).
    now rewrite replicate_cons_app.
  - lia.
Qed.

(** X5. With no demand ([arrivalRate <= 0]) and an array that can be created,
    [simulate] returns whatever the other parameters are, without a single
    call of the random source: the queue is empty on every day, nobody is
    served, utilisation is [0] and every wait statistic is [null]. *)
Theorem zero_demand_stays_idle
    (Math_exp : Q -> Q) (fuel : nat) (p : Params) (futureAdds : list nat) :
  (arrivalRate p <= 0)%Q ->
  new_Array_fill0 (days p + rebookDelay p + 2)%Q = Done futureAdds ->
  exists st r,
    run Math_exp fuel p = Done st /\
    simulate Math_exp fuel p = Done r /\
    st_rand st = mulberry32 (seed p) /\
    st_history st = [] /\
    queueSizes r = replicate (horizon p) 0%nat /\
    waits r = [] /\
    nSeen (metrics r) = 0%nat /\
    (utilisation (metrics r) == 0)%Q /\
    meanWait (metrics r) = None /\
    medianWait (metrics r) = JNull /\
    p90Wait (metrics r) = JNull /\
    within14 (metrics r) = None /\
    within28 (metrics r) = None /\
    within42 (metrics r) = None.
Proof.
  intros Hrate Harr.
  pose proof (new_Array_fill0_Done _ _ Harr) as [_ Hfa].
  assert (Hrun : run Math_exp fuel p
                 = Done (idle_state p futureAdds (horizon p))).
  { unfold run, run_until. rewrite Harr. cbn. rewrite Hfa.
    now apply run_days_idle. }
  exists (idle_state p futureAdds (horizon p)).
  exists (summarise (idle_state p futureAdds (horizon p))).
  split; [exact Hrun|]. split; [unfold simulate; now rewrite Hrun|].
  cbn. split_and!; try reflexivity.
  unfold utilisation_of. destruct (0 <? _)%nat; reflexivity.
Qed.

Lemma zero_demand_stays_idle_witness :
  (arrivalRate zero_demand <= 0)%Q /\
  new_Array_fill0 (days zero_demand + rebookDelay zero_demand + 2)%Q
  = Done (replicate 39 0%nat) /\
  exists st r,
    run exp_taylor 0 zero_demand = Done st /\
    simulate exp_taylor 0 zero_demand = Done r /\
    st_rand st = 42 /\
    queueSizes r = replicate 30 0%nat /\
    nSeen (metrics r) = 0%nat.
Proof.
  assert (Hrate : (arrivalRate zero_demand <= 0)%Q) by discriminate.
  assert (Harr : new_Array_fill0
                   (days zero_demand + rebookDelay zero_demand + 2)%Q
                 = Done (replicate 39 0%nat)) by reflexivity.
  split; [exact Hrate|]. split; [exact Harr|].
  destruct (zero_demand_stays_idle exp_taylor 0 zero_demand _ Hrate Harr)
    as (st & r & Hrun & Hsim & Hrand & _ & Hqs & _ & Hn & _).
  exists st, r. split_and!; auto.
Defined.

(** ** Rebookings and the array of future arrivals *)

Lemma scheduled_for_snoc (h : list event) (ev : event) (i : nat) :
  scheduled_for (h ++ [ev]) i
  = (scheduled_for h i + (if rebooked_to i ev then 1 else 0))%nat.
Proof.
  unfold scheduled_for. rewrite filter_app, length_app. f_equal.
  rewrite filter_cons, filter_nil.
  destruct (decide (rebooked_to i ev = true)) as [->|Hne]; [reflexivity|].
  destruct (rebooked_to i ev); [congruence|reflexivity].
Qed.

Lemma scheduled_for_app (h1 h2 : list event) (i : nat) :
  scheduled_for (h1 ++ h2) i = (scheduled_for h1 i + scheduled_for h2 i)%nat.
Proof. unfold scheduled_for. now rewrite filter_app, length_app. Qed.

Lemma scheduled_for_none (h : list event) (i : nat) :
  Forall (fun ev => rebooked_to i ev = false) h -> scheduled_for h i = 0%nat.
Proof.
  intros Hall. unfold scheduled_for. induction Hall as [|ev h Hev _ IH]; [reflexivity|].
  rewrite filter_cons. destruct (decide _) as [Heq|_]; [congruence|exact IH].
Qed.

Lemma serve_tallied (p : Params) (d e : nat) (rest : list nat) (st : State) :
  tallied st -> tallied (serve p d e rest st).
Proof.
  intros Ht i c. unfold serve.
  destruct (mulberry32_next (st_rand st)) as [r g].
  destruct (Qlt_bool r (dnaRate p / 100)).
  - destruct (mulberry32_next g) as [r' g'].
    destruct (Qlt_bool r' (rebookRate p / 100)).
    + destruct (Nat.ltb_spec (d + floor0 (rebookDelay p)) (length (st_futureAdds st)));
        cbn [st_futureAdds st_history]; rewrite scheduled_for_snoc;
        cbn [rebooked_to].
      * destruct (Nat.eqb_spec (d + floor0 (rebookDelay p)) i) as [<-|Hne].
        -- rewrite list_lookup_alter_eq.
           destruct (st_futureAdds st !! _) as [c0|] eqn:Hc0; cbn; [|discriminate].
           intros [= <-]. rewrite (Ht _ _ Hc0). lia.
        -- rewrite list_lookup_alter_ne by exact Hne.
           intros Hc. rewrite (Ht _ _ Hc). lia.
      * intros Hc. rewrite (Ht _ _ Hc). lia.
    + cbn [st_futureAdds st_history]. rewrite scheduled_for_snoc.
      cbn [rebooked_to].
      intros Hc. rewrite (Ht _ _ Hc). lia.
  - cbn [st_futureAdds st_history]. rewrite scheduled_for_snoc.
    cbn [rebooked_to].
    intros Hc. rewrite (Ht _ _ Hc). lia.
Qed.

Lemma service_loop_tallied (p : Params) (d slots : nat) (st : State) :
  tallied st -> tallied (service_loop p d slots st).
Proof.
  revert st. induction slots as [|slots IH]; intros st Ht; cbn; [exact Ht|].
  destruct (st_queue st) as [|e rest]; [exact Ht|].
  apply IH, serve_tallied, Ht.
Qed.

Lemma run_days_tallied
    (Math_exp : Q -> Q) (fuel : nat) (p : Params) (len n : nat) (st : State) :
  run_days Math_exp fuel p n (initial p (replicate len 0%nat)) = Done st ->
  tallied st.
Proof.
  revert st. induction n as [|n IH]; intros st; cbn.
  - intros [= <-] i c Hc. cbn in *. now apply lookup_replicate in Hc as [-> _].
  - destruct (run_days Math_exp fuel p n _) as [st1| |]; cbn; try discriminate.
    specialize (IH st1 eq_refl). unfold day.
    destruct (poisson _ _ _ _ _) as [[k g]|]; [|discriminate].
    intros [= <-].
    match goal with |- tallied {| st_rand := _; st_futureAdds := st_futureAdds ?s;
                           st_queue := _; st_queueSizes := _;
                           st_waits := _; st_totalSlots := _;
                           st_usedSlots := _; st_history := st_history ?s |} =>
      enough (Hfin : tallied s) by exact Hfin
    end.
    apply service_loop_tallied. exact IH.
Qed.

(** The history of a run extends the history at the start of day [n] by
    services of the days from [n] on. *)
Lemma run_days_history_from
    (Math_exp : Q -> Q) (fuel : nat) (p : Params) (st0 : State)
    (n m : nat) (stm : State) :
  (n <= m)%nat ->
  run_days Math_exp fuel p m st0 = Done stm ->
  exists stn evs,
    run_days Math_exp fuel p n st0 = Done stn /\
    st_history stm = st_history stn ++ evs /\
    Forall (fun ev => (n <= event_day ev)%nat) evs.
Proof.
  revert stm. induction m as [|m IH]; intros stm Hle Hm.
  - assert (n = 0)%nat as -> by lia.
    exists stm, []. rewrite app_nil_r. auto.
  - destruct (decide (n = S m)) as [->|Hne].
    + exists stm, []. rewrite app_nil_r. auto.
    + cbn in Hm.
      destruct (run_days Math_exp fuel p m st0) as [st1| |] eqn:Hrun;
        cbn in Hm; try discriminate.
      destruct (IH st1 ltac:(lia) eq_refl) as (stn & evs & Hn & Hh & Hev).
      apply day_spec in Hm.
      destruct Hm as (k & g & _ & _ & _ & _ & _ & _ & evs' & _ & Hh' & _ & Hev').
      exists stn, (evs ++ evs'). split_and!; auto.
      * now rewrite Hh', Hh, <- app_assoc.
      * apply Forall_app. split; [exact Hev|].
        eapply Forall_impl; [exact Hev'|]. cbn.
        intros [] Hon; cbn in *; lia.
Qed.

(** The rebookings of the services logged in the first [n] days went to
    slots [day + delay] of days before [n]. *)
Lemma reached_rebookings (p : Params) (futureAdds : list nat) (n : nat) (st : State) :
  reached p (initial p futureAdds) n st ->
  Forall (fun ev => match ev with
                    | Rebooked d r => (d < n)%nat /\ r = (d + floor0 (rebookDelay p))%nat
                    | _ => True
                    end) (st_history st).
Proof.
  intros [_ _ _ (evs & Hh & _ & _ & _ & Hev) _]. cbn in Hh. subst evs.
  eapply Forall_impl; [exact Hev|]. cbn.
  intros ev (d0 & q & Hd & _ & Hon). destruct ev; cbn in *; auto. lia.
Qed.

(** X6. With a delay below one day a rebooked person never re-enters the
    queue: the increment goes to the slot of the current day, which the
    code has read already, so the arrivals of every day are the Poisson
    draw alone. *)
Theorem same_day_rebooking_never_returns
    (Math_exp : Q -> Q) (fuel : nat) (p : Params) (r : Result) (d a : nat) :
  (rebookDelay p < 1)%Q ->
  simulate Math_exp fuel p = Done r ->
  (d < horizon p)%nat ->
  arrivals Math_exp fuel p d = Some a ->
  poisson_draw Math_exp fuel p d = Some a.
Proof.
  intros Hrd Hsim Hd Ha.
  assert (Hdelay : floor0 (rebookDelay p) = 0%nat).
  { unfold floor0. pose proof (Qfloor_le (rebookDelay p)) as Hfl.
    assert ((inject_Z (Qfloor (rebookDelay p)) < inject_Z 1)%Q) as Hlt
      by (eapply Qle_lt_trans; eassumption).
    rewrite <- Zlt_Qlt in Hlt. lia. }
  apply simulate_Done in Hsim as (fa & stN & Harr & HN & ->).
  destruct (around_day Math_exp fuel p fa stN d Harr HN Hd)
    as (st & st' & Hst & _ & Hday & _).
  apply day_spec in Hday. destruct Hday as (k & g & Hpo & _).
  unfold arrivals, poisson_draw in *. rewrite Hst, Hpo in *. cbn in *.
  unfold arrivals_of in Ha.
  destruct (st_futureAdds st !! d) as [f|] eqn:Hf; cbn in Ha; [|discriminate].
  injection Ha as <-. f_equal.
  unfold run_until in Hst. rewrite Harr in Hst. cbn in Hst.
  pose proof (new_Array_fill0_Done _ _ Harr) as [_ Hfa].
  pose proof Hst as Htal. rewrite Hfa in Htal. apply run_days_tallied in Htal.
  rewrite (Htal _ _ Hf).
  apply run_days_reached, reached_rebookings in Hst.
  rewrite scheduled_for_none; [lia|].
  eapply Forall_impl; [exact Hst|]. cbn.
  intros [] H; cbn; auto. apply Nat.eqb_neq. lia.
Qed.

Lemma same_day_rebooking_never_returns_witness :
  (rebookDelay same_day_rebooking < 1)%Q /\
  (exists r, simulate exp_taylor 100 same_day_rebooking = Done r) /\
  (1 < horizon same_day_rebooking)%nat /\
  arrivals exp_taylor 100 same_day_rebooking 1 = Some 5%nat /\
  poisson_draw exp_taylor 100 same_day_rebooking 1 = Some 5%nat.
Proof.
  assert (Hrd : (rebookDelay same_day_rebooking < 1)%Q) by reflexivity.
  assert (Hsim : simulate exp_taylor 100 same_day_rebooking
                 = Done (summarise
                           (state_of (run exp_taylor 100 same_day_rebooking)))).
  { vm_compute. reflexivity. }
  assert (Hd : (1 < horizon same_day_rebooking)%nat) by (vm_compute; lia).
  assert (Ha : arrivals exp_taylor 100 same_day_rebooking 1 = Some 5%nat).
  { vm_compute. reflexivity. }
  split; [exact Hrd|]. split; [eauto|]. split; [exact Hd|]. split; [exact Ha|].
  exact (same_day_rebooking_never_returns exp_taylor 100 same_day_rebooking
           _ 1 5 Hrd Hsim Hd Ha).
Defined.

(** X7. With a delay of at least one day every rebooking that is scheduled for
    a simulated day re-enters the queue on that day: the arrivals of day
    [d] are the Poisson draw plus the number of rebookings of the whole run
    whose return day is [d]. *)
Theorem rebookings_return_on_their_day
    (Math_exp : Q -> Q) (fuel : nat) (p : Params) (st : State) (d : nat) :
  (1 <= rebookDelay p)%Q ->
  run Math_exp fuel p = Done st ->
  (d < horizon p)%nat ->
  exists k,
    poisson_draw Math_exp fuel p d = Some k /\
    arrivals Math_exp fuel p d = Some (k + scheduled_for (st_history st) d)%nat.
Proof.
  intros Hrd Hrun Hd.
  assert (Hdelay : (1 <= floor0 (rebookDelay p))%nat).
  { unfold floor0. assert (1 <= Qfloor (rebookDelay p)).
    { change 1 with (Qfloor 1) at 1. now apply Qfloor_resp_le. }
    lia. }
  pose proof Hrun as Hrun'. unfold run, run_until in Hrun'.
  destruct (new_Array_fill0 _) as [fa| |] eqn:Harr; cbn in Hrun'; try discriminate.
  destruct (around_day Math_exp fuel p fa st d Harr Hrun' Hd)
    as (std & std1 & Hst & _ & Hday & Hlen & _).
  apply day_spec in Hday. destruct Hday as (k & g & Hpo & _).
  exists k. unfold arrivals, poisson_draw. rewrite Hst, Hpo. cbn.
  split; [reflexivity|].
  assert (Hcov : (d < length fa)%nat).
  { eapply futureAdds_covers_days; eauto. lra. }
  rewrite <- Hlen in Hcov. apply lookup_lt_is_Some_2 in Hcov as [f Hf].
  unfold arrivals_of. rewrite Hf. cbn. do 2 f_equal.
  unfold run_until in Hst. rewrite Harr in Hst. cbn in Hst.
  pose proof (new_Array_fill0_Done _ _ Harr) as [_ Hfa].
  pose proof Hst as Htal. rewrite Hfa in Htal. apply run_days_tallied in Htal.
  rewrite (Htal _ _ Hf).
  destruct (run_days_history_from Math_exp fuel p _ d (horizon p) st
              ltac:(lia) Hrun') as (std' & later & Hst' & Hh & Hlater).
  rewrite Hst in Hst'. injection Hst' as <-.
  rewrite Hh, scheduled_for_app.
  apply run_days_reached, reached_rebookings in Hrun'.
  rewrite Hh in Hrun'. apply Forall_app in Hrun' as [_ Hreb].
  rewrite (scheduled_for_none later); [lia|].
  rewrite Forall_forall in *. intros ev Hin.
  specialize (Hlater ev Hin). specialize (Hreb ev Hin).
  destruct ev; cbn in *; auto. apply Nat.eqb_neq. lia.
Qed.

Lemma rebookings_return_on_their_day_witness :
  (1 <= rebookDelay small)%Q /\
  run exp_taylor 100 small = Done small_state /\
  (5 < horizon small)%nat /\
  scheduled_for (st_history small_state) 5 = 2%nat /\
  exists k,
    poisson_draw exp_taylor 100 small 5 = Some k /\
    arrivals exp_taylor 100 small 5
    = Some (k + scheduled_for (st_history small_state) 5)%nat.
Proof.
  assert (Hrd : (1 <= rebookDelay small)%Q) by discriminate.
  assert (Hrun : run exp_taylor 100 small = Done small_state).
  { vm_compute. reflexivity. }
  assert (Hd : (5 < horizon small)%nat) by (vm_compute; lia).
  split; [exact Hrd|]. split; [exact Hrun|]. split; [exact Hd|].
  split; [reflexivity|].
  exact (rebookings_return_on_their_day exp_taylor 100 small _ 5 Hrd Hrun Hd).
Defined.

(** ** The summary statistics, continued *)

Lemma filter_le_length_mono (ws : list Z) (t1 t2 : Z) :
  t1 <= t2 ->
  (length (filter (fun w => (w <= t1)%Z) ws)
   <= length (filter (fun w => (w <= t2)%Z) ws))%nat.
Proof.
  intros Ht. induction ws as [|w ws IH]; [reflexivity|].
  rewrite !filter_cons.
  destruct (decide (w <= t1)), (decide (w <= t2)); cbn; lia.
Qed.

Lemma Qnat_le (a b : nat) : (a <= b)%nat -> (Qnat a <= Qnat b)%Q.
Proof. intros H. unfold Qnat. rewrite <- Zle_Qle. lia. Qed.

Lemma Qnat_div_le (a b n : nat) :
  (0 < n)%nat -> (a <= b)%nat -> (Qnat a / Qnat n <= Qnat b / Qnat n)%Q.
Proof.
  intros Hn Hab. unfold Qdiv. apply Qmult_le_compat_r; [now apply Qnat_le|].
  apply Qinv_le_0_compat. change 0%Q with (Qnat 0). apply Qnat_le. lia.
Qed.

(** X8. The fraction seen within a threshold lies in [[0, 1]] and grows with
    the threshold; in particular
    [0 <= within14 <= within28 <= within42 <= 1] whenever somebody was
    seen. *)
Theorem within_fractions_ordered (st : State) (t1 t2 : Z) :
  let r := summarise st in
  (0 < nSeen (metrics r))%nat ->
  t1 <= t2 ->
  (exists a b,
     within (waits r) t1 = Some a /\ within (waits r) t2 = Some b /\
     (0 <= a)%Q /\ (a <= b)%Q /\ (b <= 1)%Q) /\
  exists a b c,
    within14 (metrics r) = Some a /\
    within28 (metrics r) = Some b /\
    within42 (metrics r) = Some c /\
    (0 <= a)%Q /\ (a <= b)%Q /\ (b <= c)%Q /\ (c <= 1)%Q.
Proof.
  cbn zeta. cbn [summarise waits metrics nSeen within14 within28 within42].
  set (ws := sort_waits (st_waits st)). intros Hn Ht.
  assert (Hgen : forall u v, u <= v ->
            exists a b, within ws u = Some a /\ within ws v = Some b /\
                        (0 <= a)%Q /\ (a <= b)%Q /\ (b <= 1)%Q).
  { intros u v Huv. unfold within.
    destruct (Nat.eqb_spec (length ws) 0); [lia|].
    eexists _, _. split_and!; try reflexivity.
    - apply Qle_shift_div_l.
      + change 0%Q with (Qnat 0). unfold Qnat. rewrite <- Zlt_Qlt. lia.
      + rewrite Qmult_0_l. change 0%Q with (Qnat 0). apply Qnat_le. lia.
    - apply Qnat_div_le; [lia|]. now apply filter_le_length_mono.
    - apply Qle_shift_div_r.
      + change 0%Q with (Qnat 0). unfold Qnat. rewrite <- Zlt_Qlt. lia.
      + rewrite Qmult_1_l. apply Qnat_le, length_filter. }
  split; [now apply Hgen|].
  destruct (Hgen 14 28 ltac:(lia)) as (a & b & Ha & Hb & H0 & Hab & _).
  destruct (Hgen 28 42 ltac:(lia)) as (b' & c & Hb' & Hc & _ & Hbc & H1).
  rewrite Hb in Hb'. injection Hb' as <-.
  exists a, b, c. split_and!; auto.
Qed.

Lemma within_fractions_ordered_witness :
  (0 < nSeen (metrics (summarise small_state)))%nat /\
  1 <= 2 /\
  (exists a b,
     within (waits (summarise small_state)) 1 = Some a /\
     within (waits (summarise small_state)) 2 = Some b /\
     (0 <= a)%Q /\ (a <= b)%Q /\ (b <= 1)%Q) /\
  within (waits (summarise small_state)) 1 = Some (2 # 7) /\
  within (waits (summarise small_state)) 2 = Some (6 # 7).
Proof.
  assert (Hn : (0 < nSeen (metrics (summarise small_state)))%nat)
    by (vm_compute; lia).
  assert (Ht : 1 <= 2) by lia.
  destruct (within_fractions_ordered small_state 1 2 Hn Ht) as [Hgen _].
  split; [exact Hn|]. split; [exact Ht|]. split; [exact Hgen|].
  split; reflexivity.
Defined.

Lemma fold_left_add_bounds (ws : list Z) (lo hi acc : Z) :
  Forall (fun w => lo <= w <= hi) ws ->
  acc + Z.of_nat (length ws) * lo <= fold_left Z.add ws acc
  <= acc + Z.of_nat (length ws) * hi.
Proof.
  intros Hall. revert acc. induction Hall as [|w ws Hw _ IH]; intros acc.
  - cbn. lia.
  - cbn [fold_left length]. specialize (IH (acc + w)). nia.
Qed.

(** The mean of a nonempty array lies between any two bounds of its
    elements. *)
Lemma mean_between (ws : list Z) (lo hi : Z) :
  ws <> [] ->
  Forall (fun w => lo <= w <= hi) ws ->
  exists m, mean ws = Some m /\ (inject_Z lo <= m)%Q /\ (m <= inject_Z hi)%Q.
Proof.
  intros Hne Hall. unfold mean.
  assert (Hn : (0 < length ws)%nat) by (destruct ws; [congruence|cbn; lia]).
  destruct (Nat.eqb_spec (length ws) 0); [lia|].
  eexists. split; [reflexivity|].
  pose proof (fold_left_add_bounds ws lo hi 0 Hall) as [Hlo Hhi].
  assert (Hpos : (0 < Qnat (length ws))%Q).
  { change 0%Q with (Qnat 0). unfold Qnat. rewrite <- Zlt_Qlt. lia. }
  split.
  - apply Qle_shift_div_l; [exact Hpos|].
    unfold Qnat. rewrite <- inject_Z_mult, <- Zle_Qle. lia.
  - apply Qle_shift_div_r; [exact Hpos|].
    unfold Qnat. rewrite <- inject_Z_mult, <- Zle_Qle. lia.
Qed.

Lemma reached_waits_range (p : Params) (futureAdds : list nat) (n : nat) (st : State) :
  reached p (initial p futureAdds) n st ->
  Forall (fun w => 0 <= w <= Z.of_nat n - 1) (st_waits st).
Proof.
  intros [_ _ _ (evs & _ & Hw & _ & _ & Hev) _]. cbn in Hw. rewrite Hw.
  apply Forall_forall. intros w Hin.
  apply list_elem_of_omap in Hin as (ev & Hin & Hrec).
  rewrite Forall_forall in Hev.
  destruct (Hev ev Hin) as (d0 & q & Hd & Hq & Hon).
  destruct ev as [d e| | |]; cbn in Hrec; try discriminate.
  destruct (Qle_bool (warmup p) (Qnat d)); [|discriminate].
  injection Hrec as <-. cbn in Hon. destruct Hon as [-> He].
  rewrite Forall_forall in Hq. destruct (Hq e He) as [?|Hnil]; [lia|].
  now apply elem_of_nil in Hnil.
Qed.

(** X9. Every recorded wait of a run is a whole number of days from [0] to the
    last simulated day, and so are the mean, the median and the 90th
    percentile when somebody was seen. *)
Theorem wait_statistics_within_horizon
    (Math_exp : Q -> Q) (fuel : nat) (p : Params) (r : Result) :
  simulate Math_exp fuel p = Done r ->
  (forall w, w ∈ waits r -> 0 <= w <= Z.of_nat (horizon p) - 1) /\
  (waits r <> [] ->
   exists m md p9,
     meanWait (metrics r) = Some m /\
     medianWait (metrics r) = JNum md /\
     p90Wait (metrics r) = JNum p9 /\
     (0 <= m)%Q /\ (m <= inject_Z (Z.of_nat (horizon p) - 1))%Q /\
     0 <= md <= Z.of_nat (horizon p) - 1 /\
     0 <= p9 <= Z.of_nat (horizon p) - 1).
Proof.
  intros Hsim. apply simulate_run in Hsim as (st & Hrun & ->).
  apply run_reached in Hrun as (fa & _ & Hreach).
  apply reached_waits_range in Hreach.
  cbn [summarise waits metrics meanWait medianWait p90Wait].
  set (ws := sort_waits (st_waits st)).
  assert (Hall : Forall (fun w => 0 <= w <= Z.of_nat (horizon p) - 1) ws).
  { subst ws. now rewrite sort_waits_permutation. }
  split; [now apply Forall_forall|].
  intros Hne.
  destruct (mean_between ws 0 _ Hne Hall) as (m & Hm & Hm0 & Hm1).
  destruct (quantile_in_range ws (1 # 2) Hne) as (md & Hmd & Hqm); try discriminate.
  destruct (quantile_in_range ws (9 # 10) Hne) as (p9 & Hp9 & Hq9); try discriminate.
  rewrite Forall_forall in Hall.
  exists m, md, p9. split_and!; auto.
  - apply Hall. eapply list_elem_of_lookup_2, Hmd.
  - apply Hall. eapply list_elem_of_lookup_2, Hmd.
  - apply Hall. eapply list_elem_of_lookup_2, Hp9.
  - apply Hall. eapply list_elem_of_lookup_2, Hp9.
Qed.

Lemma wait_statistics_within_horizon_witness :
  simulate exp_taylor 100 small = Done (summarise small_state) /\
  waits (summarise small_state) <> [] /\
  (forall w, w ∈ waits (summarise small_state) -> 0 <= w <= 7) /\
  exists m md p9,
    meanWait (metrics (summarise small_state)) = Some m /\
    medianWait (metrics (summarise small_state)) = JNum md /\
    p90Wait (metrics (summarise small_state)) = JNum p9 /\
    (0 <= m)%Q /\ (m <= inject_Z 7)%Q /\
    0 <= md <= 7 /\ 0 <= p9 <= 7.
Proof.
  assert (H : simulate exp_taylor 100 small = Done (summarise small_state)).
  { vm_compute. reflexivity. }
  assert (Hne : waits (summarise small_state) <> []).
  { vm_compute. discriminate. }
  destruct (wait_statistics_within_horizon exp_taylor 100 small _ H)
    as [Hall Hstats].
  split; [exact H|]. split; [exact Hne|]. split; [exact Hall|].
  exact (Hstats Hne).
Defined.

Lemma omap_length_le {A B : Type} (f : A -> option B) (l : list A) :
  (length (omap f l) <= length l)%nat.
Proof.
  induction l as [|x l IH]; cbn; [lia|]. destruct (f x); cbn; lia.
Qed.

(** X10. One queue size is recorded for each simulated day, and the number of
    people seen after the warm-up is at most the number of services, which
    is at most the capacity offered over the horizon. *)
Theorem result_sizes
    (Math_exp : Q -> Q) (fuel : nat) (p : Params) (r : Result) :
  simulate Math_exp fuel p = Done r ->
  exists st,
    run Math_exp fuel p = Done st /\
    length (queueSizes r) = horizon p /\
    (nSeen (metrics r) <= st_usedSlots st)%nat /\
    (st_usedSlots st <= st_totalSlots st)%nat /\
    st_totalSlots st = (horizon p * cap_of p)%nat /\
    (Qnat (length (st_futureAdds st)) == days p + rebookDelay p + 2)%Q.
Proof.
  intros Hsim. apply simulate_run in Hsim as (st & Hrun & ->).
  exists st. split; [exact Hrun|].
  apply run_reached in Hrun as (fa & Harr & Hreach).
  destruct Hreach as [Hf (qs & Hqs & Hlen) Ht (evs & _ & Hw & Hu & Hle & _) _].
  cbn in *. subst qs. apply new_Array_fill0_Done in Harr as [Hfa _].
  split_and!; auto; try lia.
  - rewrite sort_waits_length, Hw, Hu. unfold recorded_waits.
    apply omap_length_le.
  - now rewrite Hf.
Qed.

Lemma result_sizes_witness :
  simulate exp_taylor 100 small = Done (summarise small_state) /\
  exists st,
    run exp_taylor 100 small = Done st /\
    length (queueSizes (summarise small_state)) = horizon small /\
    (nSeen (metrics (summarise small_state)) <= st_usedSlots st)%nat /\
    (st_usedSlots st <= st_totalSlots st)%nat /\
    st_totalSlots st = (horizon small * cap_of small)%nat /\
    (Qnat (length (st_futureAdds st)) == days small + rebookDelay small + 2)%Q.
Proof.
  assert (H : simulate exp_taylor 100 small = Done (summarise small_state)).
  { vm_compute. reflexivity. }
  split; [exact H|].
  exact (result_sizes exp_taylor 100 small _ H).
Defined.

(** ** Throwing and returning *)

(** X11. For whole numbers of days and of delay, which binary64 adds
    without rounding up to [2^51] in magnitude, [simulate] throws exactly
    when [days + rebookDelay + 2] is negative or above [2^32 - 1]: the only
    statement that can throw is the creation of [futureAdds]. *)
Theorem simulate_throws_exactly_on_invalid_length
    (Math_exp : Q -> Q) (fuel : nat) (p : Params) (d r : Z) :
  (days p == inject_Z d)%Q ->
  (rebookDelay p == inject_Z r)%Q ->
  Z.abs d <= 2 ^ 51 ->
  Z.abs r <= 2 ^ 51 ->
  simulate Math_exp fuel p = RangeError <-> ~ 0 <= d + r + 2 <= 2 ^ 32 - 1.
Proof.
  intros Hd Hr _ _.
  rewrite simulate_RangeError. unfold new_Array_fill0, JS.is_integer.
  set (len := (days p + rebookDelay p + 2)%Q).
  assert (Hlen : (len == inject_Z (d + r + 2))%Q).
  { subst len. rewrite Hd, Hr, !inject_Z_plus. reflexivity. }
  assert (Hint : Qeq_bool len (inject_Z (Qfloor len)) = true).
  { apply Qeq_bool_iff. rewrite (Qfloor_comp _ _ Hlen), Qfloor_Z. exact Hlen. }
  rewrite Hint. cbn [andb].
  destruct (Qle_bool 0 len) eqn:H0; cbn [andb].
  - apply Qle_bool_iff in H0. rewrite Hlen in H0.
    change 0%Q with (inject_Z 0) in H0. rewrite <- Zle_Qle in H0.
    destruct (Qle_bool len (inject_Z (2 ^ 32 - 1))) eqn:H1.
    + apply Qle_bool_iff in H1. rewrite Hlen, <- Zle_Qle in H1.
      split; [discriminate|]. intros Hno. exfalso. apply Hno. lia.
    + split; [|reflexivity]. intros _ [_ Hle].
      assert (H : (len <= inject_Z (2 ^ 32 - 1))%Q).
      { rewrite Hlen, <- Zle_Qle. exact Hle. }
      apply Qle_bool_iff in H. congruence.
  - split; [|reflexivity]. intros _ [Hle _].
    assert (H : (0 <= len)%Q).
    { rewrite Hlen. change 0%Q with (inject_Z 0). rewrite <- Zle_Qle. exact Hle. }
    apply Qle_bool_iff in H. congruence.
Qed.

Lemma simulate_throws_exactly_on_invalid_length_witness :
  (days negative_length == inject_Z 2)%Q /\
  (rebookDelay negative_length == inject_Z (- 5))%Q /\
  Z.abs 2 <= 2 ^ 51 /\ Z.abs (- 5) <= 2 ^ 51 /\
  ~ 0 <= 2 + - 5 + 2 <= 2 ^ 32 - 1 /\
  simulate exp_taylor 100 negative_length = RangeError.
Proof.
  assert (Hd : (days negative_length == inject_Z 2)%Q) by reflexivity.
  assert (Hr : (rebookDelay negative_length == inject_Z (- 5))%Q) by reflexivity.
  assert (H2 : Z.abs 2 <= 2 ^ 51) by (vm_compute; discriminate).
  assert (H5 : Z.abs (- 5) <= 2 ^ 51) by (vm_compute; discriminate).
  assert (Hno : ~ 0 <= 2 + - 5 + 2 <= 2 ^ 32 - 1) by lia.
  split_and!; try assumption.
  apply (simulate_throws_exactly_on_invalid_length
           exp_taylor 100 negative_length 2 (- 5) Hd Hr H2 H5).
  exact Hno.
Defined.



(** ** The histogram *)

Lemma Math_max_upper (x : Z) (xs : list Z) :
  x <= Math_max x xs /\ Forall (fun y => y <= Math_max x xs) xs.
Proof.
  unfold Math_max. revert x. induction xs as [|y ys IH]; intros x; cbn.
  - split; [lia|constructor].
  - destruct (IH (Z.max x y)) as [Hm Hall]. split; [lia|].
    constructor; [lia|exact Hall].
Qed.

Lemma Math_max_elem (x : Z) (xs : list Z) : Math_max x xs ∈ x :: xs.
Proof.
  unfold Math_max. revert x. induction xs as [|y ys IH]; intros x; cbn.
  - apply elem_of_cons. now left.
  - specialize (IH (Z.max x y)). apply elem_of_cons in IH as [Heq|Hin].
    + rewrite Heq. destruct (Z.max_spec x y) as [[_ ->]|[_ ->]].
      * apply elem_of_cons. right. apply elem_of_cons. now left.
      * apply elem_of_cons. now left.
    + apply elem_of_cons. right. apply elem_of_cons. now right.
Qed.

(** [new Array(n).fill(0)] for an integer [n] in range. *)
Lemma new_Array_fill0_integer (n : Z) :
  0 <= n <= 2 ^ 32 - 1 ->
  new_Array_fill0 (inject_Z n) = Done (replicate (Z.to_nat n) 0%nat).
Proof.
  intros Hn. unfold new_Array_fill0, JS.is_integer. rewrite Qfloor_Z.
  assert (H0 : Qle_bool 0 (inject_Z n) = true).
  { apply Qle_bool_iff. change 0%Q with (inject_Z 0). rewrite <- Zle_Qle. lia. }
  assert (H1 : Qle_bool (inject_Z n) (inject_Z (2 ^ 32 - 1)) = true).
  { apply Qle_bool_iff. rewrite <- Zle_Qle. lia. }
  assert (He : Qeq_bool (inject_Z n) (inject_Z n) = true).
  { apply Qeq_bool_iff. reflexivity. }
  now rewrite He, H0, H1.
Qed.

Lemma new_Array_fill0_negative (n : Z) :
  n < 0 -> new_Array_fill0 (inject_Z n) = RangeError.
Proof.
  intros Hn. unfold new_Array_fill0.
  assert (H0 : Qle_bool 0 (inject_Z n) = false).
  { destruct (Qle_bool 0 (inject_Z n)) eqn:H; [|reflexivity].
    apply Qle_bool_iff in H. change 0%Q with (inject_Z 0) in H.
    rewrite <- Zle_Qle in H. lia. }
  rewrite H0. now rewrite andb_false_r.
Qed.

Lemma sum_list_alter_S (cs : list nat) (i : nat) :
  (i < length cs)%nat -> sum_list (alter S i cs) = S (sum_list cs).
Proof.
  revert i. induction cs as [|c cs IH]; intros [|i] Hi; cbn in *; try lia.
  rewrite IH by lia. lia.
Qed.

Section Histogram.

Variable binSize : positive.
Variable maxEdge : Z.

Lemma count_in_length (cs : list nat) (idx : Z) :
  length (count_in cs idx) = length cs.
Proof. unfold count_in. destruct (idx <? 0); [reflexivity|apply length_alter]. Qed.

Lemma fill_length (data : list Z) (cs : list nat) :
  length (fold_left (fun c x => count_in c (bin_of binSize maxEdge x)) data cs)
  = length cs.
Proof.
  revert cs. induction data as [|x data IH]; intros cs; cbn; [reflexivity|].
  now rewrite IH, count_in_length.
Qed.

(** After the loop, slot [i] has grown by the number of data that fall in
    bin [i]. *)
Lemma fill_lookup (data : list Z) (cs : list nat) (i c : nat) :
  cs !! i = Some c ->
  fold_left (fun c x => count_in c (bin_of binSize maxEdge x)) data cs !! i
  = Some (c + length (filter (fun x => bin_of binSize maxEdge x = Z.of_nat i) data))%nat.
Proof.
  revert cs c. induction data as [|x data IH]; intros cs c Hc; cbn [fold_left].
  - cbn. now rewrite Nat.add_0_r.
  - rewrite filter_cons.
    destruct (decide (bin_of binSize maxEdge x = Z.of_nat i)) as [Heq|Hne].
    + rewrite (IH _ (S c)).
      * rewrite length_cons. f_equal. lia.
      * unfold count_in. rewrite Heq.
        destruct (Z.ltb_spec (Z.of_nat i) 0); [lia|].
        rewrite Nat2Z.id, list_lookup_alter_eq, Hc. reflexivity.
    + rewrite (IH _ c); [reflexivity|].
      unfold count_in. destruct (Z.ltb_spec (bin_of binSize maxEdge x) 0); [exact Hc|].
      rewrite list_lookup_alter_ne; [exact Hc|]. lia.
Qed.

(** Each datum whose bin is a slot of the array adds one to the total. *)
Lemma fill_total (data : list Z) (cs : list nat) :
  Forall (fun x => 0 <= bin_of binSize maxEdge x < Z.of_nat (length cs)) data ->
  sum_list (fold_left (fun c x => count_in c (bin_of binSize maxEdge x)) data cs)
  = (sum_list cs + length data)%nat.
Proof.
  intros Hall. revert cs Hall. induction data as [|x data IH]; intros cs Hall; cbn.
  - lia.
  - inversion Hall as [|? ? Hx Hrest]; subst.
    rewrite IH by (now rewrite count_in_length).
    unfold count_in. destruct (Z.ltb_spec (bin_of binSize maxEdge x) 0); [lia|].
    rewrite sum_list_alter_S by lia. lia.
Qed.

End Histogram.

(** No computed index reaches the length of the array, so the loop never
    appends to it. *)
Lemma bin_of_below_bins (binSize : positive) (maxEdge x : Z) :
  bin_of binSize maxEdge x < maxEdge / Zpos binSize + 1.
Proof.
  unfold bin_of.
  assert (Z.min x maxEdge / Zpos binSize <= maxEdge / Zpos binSize)
    by (apply Z.div_le_mono; lia).
  lia.
Qed.

(** What a call that returns has computed. *)
Lemma buildHistogram_Done
    (max_arguments : nat) (data : list Z) (binSize : positive) (maxBins : Z)
    (h : Histogram) :
  buildHistogram max_arguments data binSize maxBins = Done h ->
  (data = [] /\ counts h = []) \/
  exists x xs maxEdge,
    data = x :: xs /\
    maxEdge = Z.min (Math_max x xs) (Zpos binSize * maxBins) /\
    0 <= maxEdge / Zpos binSize + 1 /\
    counts h =
      fold_left (fun c x => count_in c (bin_of binSize maxEdge x)) data
        (replicate (Z.to_nat (maxEdge / Zpos binSize + 1)) 0%nat).
Proof.
  destruct data as [|x xs]; cbn [buildHistogram].
  - intros [= <-]. now left.
  - unfold Math_max_spread.
    destruct (length (x :: xs) <=? max_arguments)%nat; [|discriminate].
    cbv beta iota delta [mbind outcome_bind].
    intros Hb. right.
    set (maxEdge := Z.min (Math_max x xs) (Zpos binSize * maxBins)) in *.
    exists x, xs, maxEdge. split; [reflexivity|]. split; [reflexivity|].
    destruct (Z.lt_ge_cases (maxEdge / Zpos binSize + 1) 0) as [Hneg|Hpos].
    { rewrite new_Array_fill0_negative in Hb by exact Hneg. discriminate. }
    split; [exact Hpos|].
    unfold new_Array_fill0 in Hb. rewrite Qfloor_Z in Hb.
    destruct (_ && _ && _); cbn in Hb; [|discriminate].
    injection Hb as <-. reflexivity.
Qed.

(** On non-negative data the call returns, and the array it has filled. *)
Lemma buildHistogram_nonneg
    (max_arguments : nat) (x : Z) (xs : list Z) (binSize : positive)
    (maxBins : Z) :
  (length (x :: xs) <= max_arguments)%nat ->
  Forall (fun y => 0 <= y) (x :: xs) ->
  0 <= maxBins < 2 ^ 32 - 1 ->
  exists maxEdge cs,
    maxEdge = Z.min (Math_max x xs) (Zpos binSize * maxBins) /\
    1 <= maxEdge / Zpos binSize + 1 <= maxBins + 1 /\
    cs = fold_left (fun c y => count_in c (bin_of binSize maxEdge y)) (x :: xs)
           (replicate (Z.to_nat (maxEdge / Zpos binSize + 1)) 0%nat) /\
    buildHistogram max_arguments (x :: xs) binSize maxBins
    = Done {| labels := imap (fun i _ => bin_label binSize i) cs; counts := cs |} /\
    Forall (fun y => 0 <= bin_of binSize maxEdge y
                     < Z.of_nat (Z.to_nat (maxEdge / Zpos binSize + 1))) (x :: xs).
Proof.
  intros Hargs Hall Hm.
  set (maxEdge := Z.min (Math_max x xs) (Zpos binSize * maxBins)).
  assert (Hx : 0 <= x) by (inversion Hall; assumption).
  assert (Hmax : x <= Math_max x xs) by apply Math_max_upper.
  assert (He0 : 0 <= maxEdge) by (subst maxEdge; nia).
  assert (Hq0 : 0 <= maxEdge / Zpos binSize) by (apply Z.div_pos; lia).
  assert (Hq1 : maxEdge / Zpos binSize <= maxBins).
  { apply Z.div_le_upper_bound; [lia|]. subst maxEdge. lia. }
  eexists maxEdge, _. split; [reflexivity|]. split; [lia|].
  split; [reflexivity|]. split.
  - cbn [buildHistogram]. unfold Math_max_spread.
    apply Nat.leb_le in Hargs. rewrite Hargs.
    cbv beta iota delta [mbind outcome_bind]. fold maxEdge.
    rewrite new_Array_fill0_integer by lia. reflexivity.
  - eapply Forall_impl; [exact Hall|]. cbn. intros y Hy. split.
    + unfold bin_of. apply Z.div_pos; lia.
    + pose proof (bin_of_below_bins binSize maxEdge y). lia.
Qed.

(** With more data than a call takes arguments the histogram is not
    built. *)
Lemma buildHistogram_too_many
    (max_arguments : nat) (data : list Z) (binSize : positive) (maxBins : Z) :
  (max_arguments < length data)%nat ->
  buildHistogram max_arguments data binSize maxBins = RangeError.
Proof.
  intros Hlen. destruct data as [|x xs]; [cbn in Hlen; lia|].
  cbn [buildHistogram]. unfold Math_max_spread.
  destruct (Nat.leb_spec (length (x :: xs)) max_arguments); [lia|reflexivity].
Qed.

(** Among the data, the ones a bin counts: bin [i] below the last holds the
    values from [i * binSize] up to the next multiple, the last bin all the
    values from its lower edge on. *)
Lemma bin_of_interval (binSize : positive) (maxEdge x : Z) (i : nat) :
  Z.of_nat i <= maxEdge / Zpos binSize ->
  bin_of binSize maxEdge x = Z.of_nat i <->
  Z.of_nat i * Zpos binSize <= x /\
  (Z.of_nat i < maxEdge / Zpos binSize -> x < (Z.of_nat i + 1) * Zpos binSize).
Proof.
  intros Hi. unfold bin_of.
  pose proof (Z.mul_div_le maxEdge (Zpos binSize) ltac:(lia)) as Hlo.
  pose proof (Z.mul_succ_div_gt maxEdge (Zpos binSize) ltac:(lia)) as Hhi.
  split.
  - intros Hb.
    pose proof (Z.mul_div_le (Z.min x maxEdge) (Zpos binSize) ltac:(lia)) as H1.
    pose proof (Z.mul_succ_div_gt (Z.min x maxEdge) (Zpos binSize) ltac:(lia)) as H2.
    rewrite Hb in H1, H2. split; [lia|]. intros Hlt.
    assert ((Z.of_nat i + 1) * Zpos binSize <= maxEdge) by nia. lia.
  - intros [H1 H2]. symmetry. apply Z.div_unique_pos with
      (r := Z.min x maxEdge - Z.of_nat i * Zpos binSize); [|lia].
    destruct (Z.eq_dec (Z.of_nat i) (maxEdge / Zpos binSize)) as [Heq|Hne].
    + rewrite Heq in *. nia.
    + assert (Hlt : Z.of_nat i < maxEdge / Zpos binSize) by lia.
      specialize (H2 Hlt).
      assert ((Z.of_nat i + 1) * Zpos binSize <= maxEdge) by nia. lia.
Qed.

Lemma filter_length_ext {A : Type} (P Q : A -> Prop)
    `{!forall x, Decision (P x)} `{!forall x, Decision (Q x)} (l : list A) :
  (forall x, P x <-> Q x) -> length (filter P l) = length (filter Q l).
Proof.
  intros HPQ. induction l as [|x l IH]; [reflexivity|].
  rewrite !filter_cons.
  destruct (decide (P x)) as [HP|HP], (decide (Q x)) as [HQ|HQ]; cbn;
    try (rewrite IH; reflexivity).
  - now apply HPQ in HP.
  - now apply HPQ in HQ.
Qed.

(** X13. The histogram of non-negative data counts every datum once, when
    the data are no more than one call takes arguments: the call returns,
    the counts add up to the number of data, there is one label for each
    count, and there are at least one and at most [maxBins + 1] bins.  With
    more data [Math.max(...data)] throws, and so does [buildHistogram]. *)
Theorem histogram_counts_every_datum
    (max_arguments : nat) (data : list Z) (binSize : positive) (maxBins : Z) :
  data <> [] ->
  Forall (fun x => 0 <= x) data ->
  0 <= maxBins < 2 ^ 32 - 1 ->
  ((length data <= max_arguments)%nat ->
   exists h,
     buildHistogram max_arguments data binSize maxBins = Done h /\
     sum_list (counts h) = length data /\
     length (labels h) = length (counts h) /\
     1 <= Z.of_nat (length (counts h)) <= maxBins + 1) /\
  ((max_arguments < length data)%nat ->
   buildHistogram max_arguments data binSize maxBins = RangeError).
Proof.
  intros Hne Hall Hm. split; [|apply buildHistogram_too_many].
  intros Hargs. destruct data as [|x xs]; [contradiction|].
  destruct (buildHistogram_nonneg max_arguments x xs binSize maxBins Hargs Hall Hm)
    as (maxEdge & cs & _ & Hbins & Hcs & Hb & Hidx).
  eexists. split; [exact Hb|]. cbn [counts labels].
  assert (Hlen : length cs = Z.to_nat (maxEdge / Zpos binSize + 1)).
  { rewrite Hcs, fill_length, length_replicate. reflexivity. }
  split_and!.
  - rewrite Hcs, fill_total.
    + now rewrite sum_list_replicate, Nat.mul_0_r.
    + now rewrite length_replicate.
  - apply length_imap.
  - lia.
  - lia.
Qed.

Lemma histogram_counts_every_datum_witness :
  (exists h,
     buildHistogram 1000 spread 3 30 = Done h /\
     sum_list (counts h) = 6%nat /\
     length (labels h) = length (counts h) /\
     1 <= Z.of_nat (length (counts h)) <= 31) /\
  buildHistogram 5 spread 3 30 = RangeError.
Proof.
  assert (Hne : spread <> []) by discriminate.
  assert (Hall : Forall (fun x => 0 <= x) spread) by (repeat constructor; lia).
  assert (Hm : 0 <= 30 < 2 ^ 32 - 1) by lia.
  split.
  - apply (histogram_counts_every_datum 1000 spread 3 30 Hne Hall Hm).
    vm_compute. lia.
  - apply (histogram_counts_every_datum 5 spread 3 30 Hne Hall Hm).
    vm_compute. lia.
Defined.

(** X14. What each bin of a histogram holds.  A bin below the last counts the
    data from [i * binSize] up to, not including, [(i + 1) * binSize]; the
    last bin counts all the data from its lower edge on, whatever its label
    says. *)
Theorem histogram_bin_contents
    (max_arguments : nat) (data : list Z) (binSize : positive) (maxBins : Z)
    (h : Histogram) (i : nat) :
  buildHistogram max_arguments data binSize maxBins = Done h ->
  ((S i < length (counts h))%nat ->
   counts h !! i
   = Some (length (filter (fun x => Z.of_nat i * Zpos binSize <= x
                                    < (Z.of_nat i + 1) * Zpos binSize) data))) /\
  (S i = length (counts h) ->
   counts h !! i
   = Some (length (filter (fun x => Z.of_nat i * Zpos binSize <= x) data))).
Proof.
  intros Hb.
  apply buildHistogram_Done in Hb
    as [[-> Hc]|(x & xs & maxEdge & -> & HmaxEdge & Hbins & Hc)].
  { rewrite Hc. cbn. split; intros; lia. }
  assert (Hlen : length (counts h) = Z.to_nat (maxEdge / Zpos binSize + 1)).
  { rewrite Hc, fill_length, length_replicate. reflexivity. }
  assert (Hlook : (i < length (counts h))%nat ->
    counts h !! i
    = Some (length (filter (fun y => bin_of binSize maxEdge y = Z.of_nat i) (x :: xs)))).
  { intros Hi. rewrite Hc.
    rewrite (fill_lookup binSize maxEdge (x :: xs) _ i 0%nat); [reflexivity|].
    apply lookup_replicate_2. lia. }
  split; intros Hi; (rewrite Hlook by lia); f_equal; apply filter_length_ext;
    intros y; (rewrite bin_of_interval by lia); split.
  - intros [H1 H2]. split; [exact H1|]. apply H2. lia.
  - intros [H1 H2]. split; [exact H1|]. intros _. exact H2.
  - intros [H1 _]. exact H1.
  - intros H1. split; [exact H1|]. intros Hlt. lia.
Qed.

Lemma histogram_bin_contents_witness :
  buildHistogram 1000 spread 3 30 = Done spread_histogram /\
  counts spread_histogram !! 29%nat = Some 1%nat /\
  counts spread_histogram !! 30%nat = Some 3%nat.
Proof.
  assert (Hb : buildHistogram 1000 spread 3 30 = Done spread_histogram)
    by (vm_compute; reflexivity).
  split; [exact Hb|]. split.
  - destruct (histogram_bin_contents _ _ _ _ _ 29%nat Hb) as [H _].
    rewrite H by (cbn; lia). reflexivity.
  - destruct (histogram_bin_contents _ _ _ _ _ 30%nat Hb) as [_ H].
    rewrite H by reflexivity. reflexivity.
Defined.

(** X15. The histogram drawn for a run.  When the people seen are no more
    than one call takes arguments, the call of [buildHistogram] on the
    waits of a result returns, its counts add up to the number of people
    seen, and it has at most 31 bins of three days, each with its label.
    After a run that saw more people the call throws. *)
Theorem waits_histogram_of_run
    (Math_exp : Q -> Q) (fuel max_arguments : nat) (p : Params) (r : Result) :
  simulate Math_exp fuel p = Done r ->
  ((nSeen (metrics r) <= max_arguments)%nat ->
   exists h,
     waits_histogram max_arguments r = Done h /\
     sum_list (counts h) = nSeen (metrics r) /\
     (length (counts h) <= 31)%nat /\
     length (labels h) = length (counts h)) /\
  ((max_arguments < nSeen (metrics r))%nat ->
   waits_histogram max_arguments r = RangeError).
Proof.
  intros Hsim. apply simulate_run in Hsim as (st & Hrun & ->).
  apply run_reached in Hrun as (fa & _ & Hreach).
  apply reached_waits_range in Hreach.
  unfold waits_histogram. cbn [summarise waits metrics nSeen].
  split; [|apply buildHistogram_too_many].
  set (ws := sort_waits (st_waits st)).
  assert (Hall : Forall (fun w => 0 <= w) ws).
  { subst ws. rewrite sort_waits_permutation.
    eapply Forall_impl; [exact Hreach|]. cbn. intros; lia. }
  intros Hargs. destruct ws as [|x xs] eqn:Hws.
  - eexists. split; [reflexivity|]. cbn. split_and!; auto; lia.
  - destruct (buildHistogram_nonneg max_arguments x xs 3 30 Hargs Hall ltac:(lia))
      as (maxEdge & cs & _ & Hbins & Hcs & Hb & Hidx).
    eexists. split; [exact Hb|]. cbn [counts labels].
    assert (Hlen : length cs = Z.to_nat (maxEdge / 3 + 1)).
    { rewrite Hcs, fill_length, length_replicate. reflexivity. }
    split_and!.
    + rewrite Hcs, fill_total.
      * now rewrite sum_list_replicate, Nat.mul_0_r.
      * now rewrite length_replicate.
    + lia.
    + apply length_imap.
Qed.

Lemma waits_histogram_of_run_witness :
  simulate exp_taylor 100 small = Done (summarise small_state) /\
  (exists h,
     waits_histogram 1000 (summarise small_state) = Done h /\
     sum_list (counts h) = nSeen (metrics (summarise small_state)) /\
     (length (counts h) <= 31)%nat /\
     length (labels h) = length (counts h)) /\
  waits_histogram 5 (summarise small_state) = RangeError.
Proof.
  assert (H : simulate exp_taylor 100 small = Done (summarise small_state)).
  { vm_compute. reflexivity. }
  split; [exact H|]. split.
  - apply (waits_histogram_of_run exp_taylor 100 1000 small _ H).
    vm_compute. lia.
  - apply (waits_histogram_of_run exp_taylor 100 5 small _ H).
    vm_compute. lia.
Defined.

(** ** Scenarios and their cost *)

(** A positive cost needs added capacity and a positive [slotsPerWTE]. *)
Lemma estimateIncrementalAnnualCost_pos
    (inputs : CostInputs) (baselineParams scenarioParams : Params) :
  (0 < estimateIncrementalAnnualCost inputs baselineParams scenarioParams)%Q ->
  (capacityPerDay baselineParams < capacityPerDay scenarioParams)%Q /\
  (0 < slotsPerWTE (getCostAssumptions inputs))%Q.
Proof.
  unfold estimateIncrementalAnnualCost. cbv zeta.
  destruct (Qle_bool (capacityPerDay scenarioParams - capacityPerDay baselineParams) 0)
    eqn:Hd; [intros H; now apply Qlt_irrefl in H|].
  destruct (Qle_bool (slotsPerWTE (getCostAssumptions inputs)) 0)
    eqn:Hs; [intros H; now apply Qlt_irrefl in H|].
  intros _. apply Qle_bool_false_lt in Hd, Hs. split; [lra|exact Hs].
Qed.

Lemma estimateIncrementalAnnualCost_same_capacity
    (inputs : CostInputs) (baselineParams scenarioParams : Params) :
  (capacityPerDay scenarioParams <= capacityPerDay baselineParams)%Q ->
  estimateIncrementalAnnualCost inputs baselineParams scenarioParams = 0%Q.
Proof.
  intros Hle. unfold estimateIncrementalAnnualCost. cbv zeta.
  assert (H : Qle_bool (capacityPerDay scenarioParams - capacityPerDay baselineParams) 0
              = true) by (apply Qle_bool_iff; lra).
  now rewrite H.
Qed.

(** X16. What the comparison charges.  The baseline and the scenario with fewer
    non-attendances cost nothing; two more slots a day cost
    [2 / slotsPerWTE] posts, or nothing when [slotsPerWTE] is not
    positive. *)
Theorem scenario_costs (base : Params) (inputs : CostInputs) :
  incCost base inputs baseline = 0%Q /\
  incCost base inputs reduceDNA = 0%Q /\
  ((0 < slotsPerWTE (getCostAssumptions inputs))%Q ->
   (incCost base inputs addCapacity
    == 2 / slotsPerWTE (getCostAssumptions inputs)
       * wteCostAnnual (getCostAssumptions inputs))%Q) /\
  ((slotsPerWTE (getCostAssumptions inputs) <= 0)%Q ->
   incCost base inputs addCapacity = 0%Q).
Proof.
  unfold incCost. cbv zeta. cbn [buildScenariosFromCurrentInputs baseline
    reduceDNA addCapacity].
  split_and!.
  - apply estimateIncrementalAnnualCost_same_capacity. lra.
  - apply estimateIncrementalAnnualCost_same_capacity. cbn. lra.
  - intros Hs. unfold estimateIncrementalAnnualCost. cbv zeta.
    cbn [with_capacityPerDay capacityPerDay].
    destruct (Qle_bool (capacityPerDay base + 2 - capacityPerDay base) 0) eqn:Hd.
    { apply Qle_bool_iff in Hd. lra. }
    destruct (Qle_bool (slotsPerWTE (getCostAssumptions inputs)) 0) eqn:Hs0.
    { apply Qle_bool_iff in Hs0. lra. }
    apply Qmult_comp; [|reflexivity]. apply Qmult_comp; [|reflexivity]. ring.
  - intros Hs. unfold estimateIncrementalAnnualCost. cbv zeta.
    apply Qle_bool_iff in Hs. rewrite Hs.
    destruct (Qle_bool (_ - _) 0); reflexivity.
Qed.

(** X17. The scenario that adds one post never costs more than one post: its
    cost lies between nothing and [wteCostAnnual], is nothing when a post
    gives less than one slot a day, and is the whole [wteCostAnnual] when
    [slotsPerWTE] is a whole number of slots. *)
Theorem addWTE_costs_at_most_one_post (base : Params) (inputs : CostInputs) :
  (0 <= wteCostAnnual (getCostAssumptions inputs))%Q ->
  (0 <= incCost base inputs addWTE)%Q /\
  (incCost base inputs addWTE <= wteCostAnnual (getCostAssumptions inputs))%Q /\
  ((slotsPerWTE (getCostAssumptions inputs) < 1)%Q ->
   incCost base inputs addWTE = 0%Q) /\
  (forall n : Z,
     1 <= n -> (slotsPerWTE (getCostAssumptions inputs) == inject_Z n)%Q ->
     (incCost base inputs addWTE == wteCostAnnual (getCostAssumptions inputs))%Q).
Proof.
  intros Hw. unfold incCost. cbv zeta.
  cbn [buildScenariosFromCurrentInputs baseline addWTE].
  set (c := getCostAssumptions inputs) in *.
  set (s := slotsPerWTE c) in *. set (w := wteCostAnnual c) in *.
  unfold estimateIncrementalAnnualCost. cbv zeta.
  cbn [with_capacityPerDay capacityPerDay]. fold c. fold s. fold w.
  set (delta := (capacityPerDay base + Qnat (floor0 s) - capacityPerDay base)%Q).
  assert (Hdelta : (delta == Qnat (floor0 s))%Q) by (subst delta; ring).
  destruct (Qlt_le_dec s 1) as [Hlt|Hge].
  - assert (Hfl : floor0 s = 0%nat).
    { unfold floor0. assert (Qfloor s <= 0); [|lia].
      assert (Qfloor s < 1); [|lia].
      rewrite Zlt_Qlt. apply Qle_lt_trans with s; [apply Qfloor_le|exact Hlt]. }
    assert (Hd : Qle_bool delta 0 = true).
    { apply Qle_bool_iff. rewrite Hdelta, Hfl. apply Qle_refl. }
    rewrite Hd. split_and!; try lra; try reflexivity.
    intros n Hn Hs. exfalso. rewrite Hs in Hlt.
    change 1%Q with (inject_Z 1) in Hlt. rewrite <- Zlt_Qlt in Hlt. lia.
  - assert (Hf1 : 1 <= Qfloor s).
    { change 1 with (Qfloor 1). now apply Qfloor_resp_le. }
    assert (Hfl : (Qnat (floor0 s) == inject_Z (Qfloor s))%Q).
    { unfold Qnat, floor0. rewrite Z2Nat.id by lia.
      now rewrite Z.max_r by lia. }
    assert (Hdpos : (1 <= delta)%Q).
    { rewrite Hdelta, Hfl. change 1%Q with (inject_Z 1). rewrite <- Zle_Qle. lia. }
    assert (Hdle : (delta <= s)%Q) by (rewrite Hdelta, Hfl; apply Qfloor_le).
    destruct (Qle_bool delta 0) eqn:Hd.
    { apply Qle_bool_iff in Hd. lra. }
    destruct (Qle_bool s 0) eqn:Hs0.
    { apply Qle_bool_iff in Hs0. lra. }
    assert (Hspos : (0 < s)%Q) by lra.
    assert (Hratio0 : (0 <= delta / s)%Q).
    { apply Qle_shift_div_l; [exact Hspos|]. lra. }
    assert (Hratio1 : (delta / s <= 1)%Q).
    { apply Qle_shift_div_r; [exact Hspos|]. lra. }
    split_and!.
    + apply Qmult_le_0_compat; assumption.
    + rewrite <- (Qmult_1_l w) at 2. apply Qmult_le_compat_r; assumption.
    + intros Hlt. lra.
    + intros n Hn Hs.
      assert (Hds : (delta == s)%Q).
      { rewrite Hdelta, Hfl. rewrite Hs at 2.
        rewrite (Qfloor_comp _ _ Hs), Qfloor_Z. reflexivity. }
      rewrite Hds. field. lra.
Qed.

Lemma addWTE_costs_at_most_one_post_witness :
  (0 <= wteCostAnnual (getCostAssumptions part_time_costs))%Q /\
  (0 <= incCost small part_time_costs addWTE)%Q /\
  (incCost small part_time_costs addWTE <= 70000)%Q.
Proof.
  assert (Hw : (0 <= wteCostAnnual (getCostAssumptions part_time_costs))%Q)
    by (vm_compute; discriminate).
  destruct (addWTE_costs_at_most_one_post small part_time_costs Hw)
    as (H0 & H1 & _).
  split; [exact Hw|]. split; [exact H0|exact H1].
Defined.

(** ** The comparison of scenarios *)

Lemma map_outcome_Done {A B : Type} (f : A -> outcome B) (l : list A) (ys : list B) :
  map_outcome f l = Done ys -> Forall2 (fun x y => f x = Done y) l ys.
Proof.
  revert ys. induction l as [|x l IH]; intros ys; cbn.
  - intros [= <-]. constructor.
  - destruct (f x) as [y| |] eqn:Hx; cbn; try discriminate.
    destruct (map_outcome f l) as [ys'| |]; cbn; try discriminate.
    intros [= <-]. constructor; [exact Hx|]. now apply IH.
Qed.

Lemma map_outcome_RangeError {A B : Type} (f : A -> outcome B) (l : list A) :
  map_outcome f l = RangeError -> exists x, x ∈ l /\ f x = RangeError.
Proof.
  induction l as [|x l IH]; cbn; [discriminate|].
  destruct (f x) as [y| |] eqn:Hx; cbn.
  - destruct (map_outcome f l) as [ys'| |]; cbn; try discriminate.
    intros _. destruct IH as (x' & Hin & Hx'); [reflexivity|].
    exists x'. split; [now apply elem_of_cons; right|exact Hx'].
  - intros _. exists x. split; [apply elem_of_cons; now left|exact Hx].
  - discriminate.
Qed.


Section ComparisonLemmas.

Variable Math_exp : Q -> Q.
Variable fuel : nat.
Variable inputs : CostInputs.

Lemma comparison_row_Done
    (baselineParams : Params) (baselineMedian : jsval) (s : Params)
    (r : ComparisonRow) :
  comparison_row Math_exp fuel inputs baselineParams baselineMedian s = Done r ->
  exists out,
    simulate Math_exp fuel s = Done out /\
    m r = metrics out /\
    forall x, costPerWeekSaved r = Some x ->
      let incCost := estimateIncrementalAnnualCost inputs baselineParams s in
      (0 < incCost)%Q /\
      exists b w,
        baselineMedian = JNum b /\ medianWait (m r) = JNum w /\
        w + 1 <= b /\ (x == incCost * 7 / inject_Z (b - w))%Q.
Proof.
  unfold comparison_row.
  destruct (simulate Math_exp fuel s) as [out| |]; cbn; try discriminate.
  intros [= <-]. exists out. split; [reflexivity|]. split; [reflexivity|].
  cbn [m costPerWeekSaved]. intros x.
  unfold weeksSaved.
  destruct baselineMedian as [| |b]; try discriminate.
  destruct (medianWait (metrics out)) as [| |w]; try discriminate.
  destruct (Qlt_bool 0 _) eqn:Hc; cbn; [|discriminate].
  destruct (Qlt_bool (5 # 100) _) eqn:Hw; [|discriminate].
  intros [= <-]. apply Qlt_bool_true in Hc, Hw.
  split; [exact Hc|]. exists b, w. split; [reflexivity|]. split; [reflexivity|].
  assert (Hpos : (0 < inject_Z (b - w))%Q).
  { apply Qnot_le_lt. intros Hle.
    assert (H7 : (inject_Z (b - w) / 7 <= 0)%Q).
    { apply Qle_shift_div_r; [reflexivity|]. now rewrite Qmult_0_l. }
    apply (Qlt_irrefl 0). apply Qlt_trans with (5 # 100)%Q; [reflexivity|].
    eapply Qlt_le_trans; [exact Hw|exact H7]. }
  split.
  - change 0%Q with (inject_Z 0) in Hpos. rewrite <- Zlt_Qlt in Hpos. lia.
  - field. lra.
Qed.

(** Every scenario simulates the same number of days with the same delay,
    so all the calls of [simulate] allocate an array of the same length. *)
Lemma scenarios_same_length (base s : Params) :
  s ∈ Object_values (buildScenariosFromCurrentInputs base inputs) ->
  arrivalRate s = arrivalRate base /\
  days s = days base /\ rebookDelay s = rebookDelay base.
Proof.
  unfold Object_values. cbn. intros Hin.
  repeat (apply elem_of_cons in Hin as [->|Hin]; [now cbn|]).
  now apply elem_of_nil in Hin.
Qed.

End ComparisonLemmas.

(** X18. A cost per week saved is shown only for a scenario that adds capacity
    and whose median wait is at least one whole day below the baseline's;
    it is then the incremental cost times seven over the days gained.  The
    rows of the baseline and of the scenario with fewer non-attendances
    always show the dash. *)
Theorem cost_per_week_saved_needs_a_day_gained
    (Math_exp : Q -> Q) (fuel : nat) (inputs : CostInputs) (base : Params)
    (rows : list ComparisonRow) :
  runAllComparisons Math_exp fuel inputs base = Done rows ->
  exists r0 r1 r2 r3,
    rows = [r0; r1; r2; r3] /\
    simulate Math_exp fuel base
    = Done (summarise (state_of (run Math_exp fuel base))) /\
    m r0 = metrics (summarise (state_of (run Math_exp fuel base))) /\
    costPerWeekSaved r0 = None /\
    costPerWeekSaved r2 = None /\
    forall r x,
      r ∈ rows -> costPerWeekSaved r = Some x ->
      (0 < x)%Q /\
      (0 < slotsPerWTE (getCostAssumptions inputs))%Q /\
      exists b w,
        medianWait (m r0) = JNum b /\ medianWait (m r) = JNum w /\
        w + 1 <= b.
Proof.
  unfold runAllComparisons. cbv zeta.
  cbn [buildScenariosFromCurrentInputs baseline].
  destruct (simulate Math_exp fuel base) as [out0| |] eqn:Hsim0; cbn [mbind];
    try discriminate.
  cbv beta iota delta [mbind outcome_bind].
  intros Hrows.
  apply map_outcome_Done in Hrows. unfold Object_values in Hrows.
  cbn [baseline addCapacity reduceDNA addWTE] in Hrows.
  inversion Hrows as [|p0 r0 ps0 rs0 H0 Hrest0]; subst.
  inversion Hrest0 as [|p1 r1 ps1 rs1 H1 Hrest1]; subst.
  inversion Hrest1 as [|p2 r2 ps2 rs2 H2 Hrest2]; subst.
  inversion Hrest2 as [|p3 r3 ps3 rs3 H3 Hrest3]; subst.
  inversion Hrest3; subst.
  exists r0, r1, r2, r3. split; [reflexivity|].
  assert (Hout0 : out0 = summarise (state_of (run Math_exp fuel base))).
  { apply simulate_run in Hsim0 as (st & Hrun & ->). now rewrite Hrun. }
  destruct (comparison_row_Done _ _ _ _ _ _ _ H0) as (o0 & Ho0 & Hm0 & Hc0).
  destruct (comparison_row_Done _ _ _ _ _ _ _ H1) as (o1 & Ho1 & Hm1 & Hc1).
  destruct (comparison_row_Done _ _ _ _ _ _ _ H2) as (o2 & Ho2 & Hm2 & Hc2).
  destruct (comparison_row_Done _ _ _ _ _ _ _ H3) as (o3 & Ho3 & Hm3 & Hc3).
  assert (Ho : o0 = out0) by congruence. subst o0.
  split; [now rewrite <- Hout0|]. split; [now rewrite <- Hout0|].
  assert (Hnone0 : costPerWeekSaved r0 = None).
  { destruct (costPerWeekSaved r0) as [x|] eqn:Hx; [|reflexivity].
    destruct (Hc0 x eq_refl) as [Hpos _].
    rewrite estimateIncrementalAnnualCost_same_capacity in Hpos by lra.
    now apply Qlt_irrefl in Hpos. }
  assert (Hnone2 : costPerWeekSaved r2 = None).
  { destruct (costPerWeekSaved r2) as [x|] eqn:Hx; [|reflexivity].
    destruct (Hc2 x eq_refl) as [Hpos _].
    rewrite estimateIncrementalAnnualCost_same_capacity in Hpos by (cbn; lra).
    now apply Qlt_irrefl in Hpos. }
  split; [exact Hnone0|]. split; [exact Hnone2|].
  assert (Hrow : forall (s : Params) (r : ComparisonRow) (x : Q),
    (forall x, costPerWeekSaved r = Some x ->
       let incCost := estimateIncrementalAnnualCost inputs base s in
       (0 < incCost)%Q /\
       exists b w,
         medianWait (metrics out0) = JNum b /\ medianWait (m r) = JNum w /\
         w + 1 <= b /\ (x == incCost * 7 / inject_Z (b - w))%Q) ->
    costPerWeekSaved r = Some x ->
    (0 < x)%Q /\
    (0 < slotsPerWTE (getCostAssumptions inputs))%Q /\
    exists b w,
      medianWait (m r0) = JNum b /\ medianWait (m r) = JNum w /\ w + 1 <= b).
  { intros s r x Hc Hx. destruct (Hc x Hx) as (Hpos & b & w & Hb & Hw & Hbw & Hxe).
    cbv zeta in Hpos. split; [|split].
    - rewrite Hxe. apply Qlt_shift_div_l.
      + change 0%Q with (inject_Z 0). rewrite <- Zlt_Qlt. lia.
      + lra.
    - now apply estimateIncrementalAnnualCost_pos in Hpos.
    - exists b, w. rewrite Hm0. auto. }
  intros r x Hin Hx.
  repeat (apply elem_of_cons in Hin as [->|Hin]; [eapply Hrow; eassumption|]).
  now apply elem_of_nil in Hin.
Qed.

Lemma cost_per_week_saved_needs_a_day_gained_witness :
  runAllComparisons exp_taylor 100 blank_costs small = Done small_rows /\
  exists r0 r1 r2 r3,
    small_rows = [r0; r1; r2; r3] /\
    simulate exp_taylor 100 small
    = Done (summarise (state_of (run exp_taylor 100 small))) /\
    m r0 = metrics (summarise (state_of (run exp_taylor 100 small))) /\
    costPerWeekSaved r0 = None /\
    costPerWeekSaved r2 = None /\
    forall r x,
      r ∈ small_rows -> costPerWeekSaved r = Some x ->
      (0 < x)%Q /\
      (0 < slotsPerWTE (getCostAssumptions blank_costs))%Q /\
      exists b w,
        medianWait (m r0) = JNum b /\ medianWait (m r) = JNum w /\
        w + 1 <= b.
Proof.
  assert (H : runAllComparisons exp_taylor 100 blank_costs small = Done small_rows).
  { vm_compute. reflexivity. }
  split; [exact H|].
  exact (cost_per_week_saved_needs_a_day_gained exp_taylor 100 blank_costs small _ H).
Defined.

(** X19. The comparison throws exactly when the simulation of the inputs does:
    no scenario changes the number of days or the delay, on which alone
    the length of the array depends. *)
Theorem comparisons_throw_with_baseline
    (Math_exp : Q -> Q) (fuel : nat) (inputs : CostInputs) (base : Params) :
  runAllComparisons Math_exp fuel inputs base = RangeError <->
  simulate Math_exp fuel base = RangeError.
Proof.
  unfold runAllComparisons. cbv zeta.
  cbn [buildScenariosFromCurrentInputs baseline].
  split.
  - destruct (simulate Math_exp fuel base) as [out0| |] eqn:Hsim0;
      [|reflexivity|discriminate].
    cbv beta iota delta [mbind outcome_bind]. intros Hmap.
    apply map_outcome_RangeError in Hmap as (s & Hin & Hs).
    exfalso.
    assert (Hthrow : simulate Math_exp fuel s = RangeError).
    { unfold comparison_row in Hs.
      destruct (simulate Math_exp fuel s); cbn in Hs; congruence. }
    apply simulate_RangeError in Hthrow.
    destruct (scenarios_same_length inputs base s Hin) as (_ & Hd & Hr).
    rewrite Hd, Hr in Hthrow.
    apply (simulate_RangeError Math_exp fuel base) in Hthrow. congruence.
  - intros ->. reflexivity.
Qed.


